(** * wagtailseo/blocks.py: structured-data projections

    A shallow embedding of [wagtailseo/blocks.py] and of the parts of the
    Python runtime it calls ([dict.update], [json.loads], truthiness of
    [str]), followed by the properties of the two [struct_dict]
    projections and of the multi-select field.

    Conventions.
    - A Python [str] is the Rocq [string] holding its UTF-8 encoding
      (a lone surrogate is encoded on three bytes, as Python's
      [surrogatepass] does), so that equality and emptiness of the two
      coincide and [chars] recovers the code points.
    - A Python [float] is the [spec_float] of binary64.
    - A Python [dict] is an association list in insertion order; its keys
      are compared the way [dict] does it, by hash and [==].
    - The children of a block value are held with the types the form
      layer hands them over with: a choice or a text is a [str] (empty
      when left blank), the days are a list of [str], a time is a
      [datetime.time].
    - Exceptions are values of [exn].  The two limits of the interpreter
      that [json.loads] can hit, the recursion limit and the limit on the
      digits of an [int], are a parameter of the model ([json.limits]);
      memory is not modelled. *)

From Stdlib Require Import String Ascii List ZArith NArith Bool Lia PeanoNat.
From Stdlib Require Import Floats.SpecFloat.
Import ListNotations.
Local Open Scope string_scope.

(** ** Exceptions and results *)

Inductive exn : Type :=
| JSONDecodeError   (* json.JSONDecodeError, a subclass of ValueError *)
| TypeError
| ValueError
| RecursionError
| ValidationError.  (* django.core.exceptions.ValidationError *)

Inductive result (A : Type) : Type :=
| Ok (a : A)
| Raise (x : exn).
Arguments Ok {A} a.
Arguments Raise {A} x.

Definition bind {A B} (r : result A) (k : A -> result B) : result B :=
  match r with
  | Ok a => k a
  | Raise x => Raise x
  end.

Declare Scope py_scope.
Delimit Scope py_scope with py.
Notation "x <- r ;; k" := (bind r (fun x => k))
  (at level 61, r at next level, right associativity) : py_scope.
Notation "' p <- r ;; k" := (bind r (fun x => let 'p := x in k))
  (at level 61, p pattern, r at next level, right associativity) : py_scope.

(** ** Python values *)

(** [datetime.time], the value of a [TimeBlock]. *)
Record time : Type := mk_time
  { hour : nat; minute : nat; second : nat; microsecond : nat }.

#[warnings="-register-all"]
Inductive pyval : Type :=
| PNone
| PBool (b : bool)
| PInt (z : Z)
| PFloat (f : spec_float)
| PStr (s : string)
| PList (l : list pyval)
| PDict (d : list (pyval * pyval))
| PTime (t : time).

Definition dict : Type := list (pyval * pyval).

(** Truthiness of a [str]: non-empty. *)
Definition truthy (s : string) : bool := negb (s =? "").

(** *** Code points of a [str] *)

Definition is_continuation (c : ascii) : bool :=
  ((128 <=? nat_of_ascii c) && (nat_of_ascii c <? 192))%nat.

Definition starts_with_continuation (s : string) : bool :=
  match s with
  | String c _ => is_continuation c
  | EmptyString => false
  end.

(** Iterating a [str] yields its code points, each a [str] of length 1. *)
Fixpoint chars (s : string) : list string :=
  match s with
  | EmptyString => []
  | String c s' =>
      match chars s' with
      | h :: t =>
          if starts_with_continuation h then String c h :: t
          else String c "" :: h :: t
      | [] => [String c ""]
      end
  end.

(** *** Hashing and key equality

    [py_hash] gives the class of a key under [hash] and [==]: [True],
    [1] and [1.0] are one key, a [float] otherwise stands for its exact
    dyadic value, and [list] and [dict] are unhashable.  The only NaN
    the decoder produces is the one object [json.decoder.NaN], which a
    [dict] finds by identity. *)

Inductive hkey : Type :=
| HNone
| HStr (s : string)
| HInt (z : Z)
| HDyadic (neg : bool) (m : positive) (e : positive)  (* m odd, value m / 2^e *)
| HInf (neg : bool)
| HNaN
| HTime (t : time).

(** [m * 2^(-e)] in lowest terms. *)
Fixpoint dyadic (neg : bool) (m : positive) (e : positive) : hkey :=
  match m with
  | xO m' =>
      match e with
      | xH => HInt (if neg then Zneg m' else Zpos m')
      | _ => dyadic neg m' (Pos.pred e)
      end
  | _ => HDyadic neg m e
  end.

Definition float_key (f : spec_float) : hkey :=
  match f with
  | S754_zero _ => HInt 0
  | S754_infinity s => HInf s
  | S754_nan => HNaN
  | S754_finite s m (Zneg e) => dyadic s m e
  | S754_finite s m e => HInt ((if s then Zneg m else Zpos m) * 2 ^ e)
  end.

Definition py_hash (v : pyval) : option hkey :=
  match v with
  | PNone => Some HNone
  | PBool b => Some (HInt (if b then 1 else 0))
  | PInt z => Some (HInt z)
  | PFloat f => Some (float_key f)
  | PStr s => Some (HStr s)
  | PTime t => Some (HTime t)
  | PList _ | PDict _ => None
  end.

Definition hashable (v : pyval) : bool :=
  match py_hash v with Some _ => true | None => false end.

Definition time_eq_dec (a b : time) : {a = b} + {a <> b}.
Proof. decide equality; apply Nat.eq_dec. Defined.

Definition hkey_eq_dec (a b : hkey) : {a = b} + {a <> b}.
Proof.
  decide equality;
    first [ apply string_dec | apply Z.eq_dec | apply Pos.eq_dec
          | apply bool_dec | apply time_eq_dec ].
Defined.

(** Do [a] and [b] name the same entry of a [dict]? *)
Definition same_key (a b : pyval) : bool :=
  match py_hash a, py_hash b with
  | Some x, Some y => if hkey_eq_dec x y then true else false
  | _, _ => false
  end.

(** *** Dictionaries *)

(** [d[k]], [None] for a missing key. *)
Fixpoint dict_get (d : dict) (k : pyval) : option pyval :=
  match d with
  | [] => None
  | (k', v') :: d' => if same_key k' k then Some v' else dict_get d' k
  end.

(** [d[k] = v] for a hashable [k]: an existing entry keeps its key object
    and its position, a new one goes last. *)
Fixpoint dict_setitem (d : dict) (k v : pyval) : dict :=
  match d with
  | [] => [(k, v)]
  | (k', v') :: d' =>
      if same_key k' k then (k', v) :: d'
      else (k', v') :: dict_setitem d' k v
  end.

(** A [dict] display [{k1: v1, ...}] and [PyDict_Merge]: the items are
    stored from left to right. *)
Definition dict_merge (d : dict) (items : list (pyval * pyval)) : dict :=
  fold_left (fun acc kv => dict_setitem acc (fst kv) (snd kv)) items d.

Definition dict_display (items : list (pyval * pyval)) : dict :=
  dict_merge [] items.

(** [iter(v)] run to the end; [TypeError] when [v] is not iterable. *)
Definition py_iter (v : pyval) : result (list pyval) :=
  match v with
  | PList l => Ok l
  | PStr s => Ok (map PStr (chars s))
  | PDict d => Ok (map fst d)
  | _ => Raise TypeError
  end.

(** [PyDict_MergeFromSeq2]: every element must be a sequence of length 2
    whose first item is hashable.  The dictionary is updated in place, so
    what was stored before a bad element stays stored: the function
    returns the store it leaves together with the exception, if any. *)
Fixpoint merge_from_seq2 (d : dict) (items : list pyval)
  : dict * option exn :=
  match items with
  | [] => (d, None)
  | item :: rest =>
      match py_iter item with
      | Raise _ => (d, Some TypeError)
      | Ok [k; v] =>
          if hashable k then merge_from_seq2 (dict_setitem d k v) rest
          else (d, Some TypeError)
      | Ok _ => (d, Some ValueError)
      end
  end.

(** [d.update(arg)]: a mapping is merged, anything else is read as an
    iterable of pairs. *)
Definition dict_update (d : dict) (arg : pyval) : dict * option exn :=
  match arg with
  | PDict items => (dict_merge d items, None)
  | _ =>
      match py_iter arg with
      | Raise x => (d, Some x)
      | Ok items => merge_from_seq2 d items
      end
  end.

(** *** [repr] and [str]

    The text of a [str] and of a [list] of them, as [unicode_repr] and
    [list_repr] of CPython write it.  Whether a code point beyond ASCII is
    printable is a table of the Unicode database
    ([Py_UNICODE_ISPRINTABLE]); the model takes it as the parameter
    [printable]. *)

(** The code point a UTF-8 sequence encodes. *)
Definition code_point (ch : string) : N :=
  match ch with
  | EmptyString => 0%N
  | String lead rest =>
      let n := N_of_ascii lead in
      let payload :=
        (if n <? 128 then n
         else if n <? 224 then n mod 32
         else if n <? 240 then n mod 16
         else n mod 8)%N in
      fold_left (fun acc c => (acc * 64 + N_of_ascii c mod 64)%N)
                (list_ascii_of_string rest) payload
  end.

Definition hex_digit (n : N) : ascii :=
  (if n <? 10 then ascii_of_N (48 + n) else ascii_of_N (87 + n))%N.

(** [n] on [count] hexadecimal digits, in lower case. *)
Fixpoint hex_digits (count : nat) (n : N) : string :=
  match count with
  | O => ""
  | S k => hex_digits k (n / 16) ++ String (hex_digit (n mod 16)) ""
  end.

Fixpoint contains (c : ascii) (s : string) : bool :=
  match s with
  | EmptyString => false
  | String a s' => (a =? c)%char || contains c s'
  end.

(** The quotation mark of a [repr]: an apostrophe (byte 39), or a double
    quote (byte 34) when the string holds apostrophes and no double
    quote. *)
Definition repr_quote (s : string) : ascii :=
  if contains "039" s && negb (contains "034" s) then "034"%char
  else "039"%char.

Definition repr_char (printable : N -> bool) (quote : ascii) (ch : string)
  : string :=
  let cp := code_point ch in
  (if (cp =? N_of_ascii quote) || (cp =? 92) then String "\" ch
   else if cp =? 9 then "\t"
   else if cp =? 10 then "\n"
   else if cp =? 13 then "\r"
   else if (cp <? 32) || (cp =? 127) then "\x" ++ hex_digits 2 cp
   else if cp <? 127 then ch
   else if printable cp then ch
   else if cp <=? 255 then "\x" ++ hex_digits 2 cp
   else if cp <=? 65535 then "\u" ++ hex_digits 4 cp
   else "\U" ++ hex_digits 8 cp)%N.

(** [repr(s)] of a [str]. *)
Definition py_repr_str (printable : N -> bool) (s : string) : string :=
  let quote := repr_quote s in
  String quote
    (String.concat "" (map (repr_char printable quote) (chars s))
     ++ String quote "").

(** [str(l)] of a [list] of [str]. *)
Definition py_str_list (printable : N -> bool) (l : list string) : string :=
  "[" ++ String.concat ", " (map (py_repr_str printable) l) ++ "]".

(** ** [json.loads]

    The decoder of the standard library with its default options, as the
    C scanner of CPython runs it: recursive descent over the text, one
    exception class ([JSONDecodeError]) for every malformed input, and
    the [RecursionError] and [ValueError] of the interpreter's limits. *)

Module json.

Local Open Scope char_scope.

(** The state of the interpreter the decoder depends on.  [nesting] is
    how many arrays and objects may still be entered, one inside the
    other, when [json.loads] is called: what the recursion limit leaves
    ([Py_EnterRecursiveCall] fails beyond it).  [max_str_digits] is
    [sys.get_int_max_str_digits()]: 4300 unless configured, 0 for no
    limit, as in the versions of Python that have none. *)
Record limits : Type := mk_limits
  { nesting : nat;
    max_str_digits : nat }.

(** [PyLong_FromString] refuses a decimal text of more than 640 digits
    that is longer than the limit, when there is one. *)
Definition exceeds_max_str_digits (maxd ndigits : nat) : bool :=
  ((640 <? ndigits) && (0 <? maxd) && (maxd <? ndigits))%nat.

Definition is_whitespace (c : ascii) : bool :=
  (c =? " ") || (c =? "009") || (c =? "010") || (c =? "013").

Fixpoint skip_whitespace (s : string) : string :=
  match s with
  | String c s' => if is_whitespace c then skip_whitespace s' else s
  | EmptyString => s
  end.

Definition is_digit (c : ascii) : bool :=
  ((48 <=? nat_of_ascii c) && (nat_of_ascii c <=? 57))%nat.

Definition digit_value (c : ascii) : Z :=
  Z.of_nat (nat_of_ascii c) - 48.

(** A run of decimal digits: the number they add to [acc], how many there
    were, and the text after them. *)
Fixpoint scan_digits (s : string) (acc : Z) (count : nat)
  : Z * nat * string :=
  match s with
  | String c s' =>
      if is_digit c then scan_digits s' (10 * acc + digit_value c) (S count)
      else (acc, count, s)
  | EmptyString => (acc, count, s)
  end.

(** [float(text)] for the decimal [m * 10^e10]: the nearest binary64,
    ties to even, overflow to infinity. *)
Definition float_of_decimal (neg : bool) (m : Z) (e10 : Z) : spec_float :=
  match m with
  | Z0 => S754_zero neg
  | _ =>
      if (0 <=? e10)%Z then
        binary_normalize 53 1024 ((if neg then - m else m) * 10 ^ e10) 0 neg
      else
        let '(q, e, l) :=
          SFdiv_core_binary 53 1024 m 0 (10 ^ (- e10)) 0 in
        binary_round_aux 53 1024 neg q e l
  end.

(** [_match_number]: an optional minus sign; then 0, or a digit from 1 to
    9 and any digits; then, optionally, a dot and one digit or more; then,
    optionally, e or E, an optional sign and one digit or more.  An [int]
    unless a fraction or an exponent was read; [int(text)] raises
    [ValueError] for a text over the limit [maxd] on its digits, which
    [float(text)] does not have. *)

Definition scan_sign (s : string) : bool * string :=
  match s with
  | String c s' => if c =? "-" then (true, s') else (false, s)
  | EmptyString => (false, s)
  end.

(** The integer part: its value, the number of its digits and the text
    after it. *)
Definition scan_int (s : string) : option (Z * nat * string) :=
  match s with
  | String c s' =>
      if c =? "0" then Some (0%Z, 1%nat, s')
      else if is_digit c then Some (scan_digits s 0 0)
      else None
  | EmptyString => None
  end.

(** The fraction: its digits as a number and how many they are. *)
Definition scan_frac (s : string) : option (Z * nat) * string :=
  match s with
  | String dot (String d _ as t) =>
      if (dot =? ".") && is_digit d then
        let '(f, n, rest) := scan_digits t 0 0 in (Some (f, n), rest)
      else (None, s)
  | _ => (None, s)
  end.

(** The exponent; the scanner backs up to the e when no digit follows. *)
Definition scan_exp (s : string) : option Z * string :=
  match s with
  | String e t =>
      if (e =? "e") || (e =? "E") then
        let '(neg, t1) :=
          match t with
          | String sign t' =>
              if sign =? "-" then (true, t')
              else if sign =? "+" then (false, t')
              else (false, t)
          | EmptyString => (false, t)
          end in
        match scan_digits t1 0 0 with
        | (_, O, _) => (None, s)
        | (x, _, rest) => (Some (if neg then (- x)%Z else x), rest)
        end
      else (None, s)
  | EmptyString => (None, s)
  end.

Definition match_number (maxd : nat) (s : string)
  : result (pyval * string) :=
  let '(neg, s1) := scan_sign s in
  match scan_int s1 with
  | None => Raise JSONDecodeError
  | Some (int, ndigits, s2) =>
      let '(frac, s3) := scan_frac s2 in
      let '(exp, s4) := scan_exp s3 in
      match frac, exp with
      | None, None =>
          if exceeds_max_str_digits maxd ndigits then Raise ValueError
          else Ok (PInt (if neg then - int else int), s4)
      | _, _ =>
          let '(f, n) := match frac with Some fn => fn | None => (0%Z, O) end in
          let x := match exp with Some x => x | None => 0%Z end in
          Ok (PFloat (float_of_decimal neg (int * 10 ^ Z.of_nat n + f)
                        (x - Z.of_nat n)), s4)
      end
  end.

(** *** Strings *)

Definition hex_value (c : ascii) : option N :=
  let n := N_of_ascii c in
  if ((48 <=? n) && (n <=? 57))%N then Some (n - 48)%N
  else if ((65 <=? n) && (n <=? 70))%N then Some (n - 55)%N
  else if ((97 <=? n) && (n <=? 102))%N then Some (n - 87)%N
  else None.

Definition hex4 (a b c d : ascii) : option N :=
  match hex_value a, hex_value b, hex_value c, hex_value d with
  | Some x, Some y, Some z, Some w =>
      Some (((x * 16 + y) * 16 + z) * 16 + w)%N
  | _, _, _, _ => None
  end.

Definition is_high_surrogate (cp : N) : bool :=
  ((55296 <=? cp) && (cp <=? 56319))%N.
Definition is_low_surrogate (cp : N) : bool :=
  ((56320 <=? cp) && (cp <=? 57343))%N.
Definition join_surrogates (hi lo : N) : N :=
  (65536 + (hi - 55296) * 1024 + (lo - 56320))%N.

Definition byte (n : N) : ascii := ascii_of_N n.

(** The UTF-8 encoding of a code point. *)
Definition utf8 (cp : N) : string :=
  (if cp <? 128 then String (byte cp) ""
   else if cp <? 2048 then
     String (byte (192 + cp / 64)) (String (byte (128 + cp mod 64)) "")
   else if cp <? 65536 then
     String (byte (224 + cp / 4096))
       (String (byte (128 + (cp / 64) mod 64))
          (String (byte (128 + cp mod 64)) ""))
   else
     String (byte (240 + cp / 262144))
       (String (byte (128 + (cp / 4096) mod 64))
          (String (byte (128 + (cp / 64) mod 64))
             (String (byte (128 + cp mod 64)) ""))))%N.

Definition simple_escape (c : ascii) : option ascii :=
  if c =? "034" then Some "034"
  else if c =? "\" then Some "\"
  else if c =? "/" then Some "/"
  else if c =? "b" then Some "008"
  else if c =? "f" then Some "012"
  else if c =? "n" then Some "010"
  else if c =? "r" then Some "013"
  else if c =? "t" then Some "009"
  else None.

(** [scanstring], entered after the opening quote (byte 34), in strict
    mode: the decoded string and the text after the closing quote. *)
Fixpoint scanstring (acc : string) (s : string) : result (string * string) :=
  match s with
  | EmptyString => Raise JSONDecodeError
  | String c s1 =>
      if c =? "034" then Ok (acc, s1)
      else if c =? "\" then
        match s1 with
        | EmptyString => Raise JSONDecodeError
        | String e s2 =>
            if e =? "u" then
              match s2 with
              | String h1 (String h2 (String h3 (String h4 s6))) =>
                  match hex4 h1 h2 h3 h4 with
                  | None => Raise JSONDecodeError
                  | Some cp =>
                      match s6 with
                      | String b (String u (String l1 (String l2
                          (String l3 (String l4 s12))))) =>
                          if is_high_surrogate cp && (b =? "\") && (u =? "u")
                          then
                            match hex4 l1 l2 l3 l4 with
                            | None => Raise JSONDecodeError
                            | Some cp2 =>
                                if is_low_surrogate cp2 then
                                  scanstring
                                    (acc ++ utf8 (join_surrogates cp cp2)) s12
                                else scanstring (acc ++ utf8 cp) s6
                            end
                          else scanstring (acc ++ utf8 cp) s6
                      | _ => scanstring (acc ++ utf8 cp) s6
                      end
                  end
              | _ => Raise JSONDecodeError
              end
            else
              match simple_escape e with
              | Some x => scanstring (acc ++ String x "") s2
              | None => Raise JSONDecodeError
              end
        end
      else if (nat_of_ascii c <? 32)%nat then Raise JSONDecodeError
      else scanstring (acc ++ String c "") s1
  end.

(** *** Values *)

(** Does [s] begin with [p]?  If so, the text after it. *)
Fixpoint starts_with (p s : string) : option string :=
  match p with
  | EmptyString => Some s
  | String a p' =>
      match s with
      | String b s' => if a =? b then starts_with p' s' else None
      | EmptyString => None
      end
  end.

Local Open Scope string_scope.

(** [null], [true], [false] and the three constants the decoder allows
    beyond JSON. *)
Definition scan_constant (s : string) : option (pyval * string) :=
  match starts_with "null" s with
  | Some rest => Some (PNone, rest)
  | None =>
  match starts_with "true" s with
  | Some rest => Some (PBool true, rest)
  | None =>
  match starts_with "false" s with
  | Some rest => Some (PBool false, rest)
  | None =>
  match starts_with "NaN" s with
  | Some rest => Some (PFloat S754_nan, rest)
  | None =>
  match starts_with "Infinity" s with
  | Some rest => Some (PFloat (S754_infinity false), rest)
  | None =>
  match starts_with "-Infinity" s with
  | Some rest => Some (PFloat (S754_infinity true), rest)
  | None => None
  end end end end end end.

(** The recursive descent.  [depth] is how many arrays and objects may
    still be entered: entering one beyond it raises [RecursionError],
    whatever follows in the text.  [fuel] bounds the calls of the model;
    [None] is returned when it runs out, which [loads] never lets
    happen. *)
Fixpoint scan_once (fuel depth maxd : nat) (s : string)
  : option (result (pyval * string)) :=
  match fuel with
  | O => None
  | S n =>
      match s with
      | EmptyString => Some (Raise JSONDecodeError)
      | String c s' =>
          if (c =? "034")%char then
            Some ('(str, rest) <- scanstring "" s' ;; Ok (PStr str, rest))%py
          else if (c =? "{")%char then
            match depth with
            | O => Some (Raise RecursionError)
            | S depth' =>
                match skip_whitespace s' with
                | String c' rest =>
                    if (c' =? "}")%char then Some (Ok (PDict [], rest))
                    else parse_object n depth' maxd (String c' rest) []
                | EmptyString => Some (Raise JSONDecodeError)
                end
            end
          else if (c =? "[")%char then
            match depth with
            | O => Some (Raise RecursionError)
            | S depth' =>
                match skip_whitespace s' with
                | String c' rest =>
                    if (c' =? "]")%char then Some (Ok (PList [], rest))
                    else parse_array n depth' maxd (String c' rest) []
                | EmptyString => Some (Raise JSONDecodeError)
                end
            end
          else
            match scan_constant s with
            | Some r => Some (Ok r)
            | None => Some (match_number maxd s)
            end
      end
  end

(** The items of an array, [s] at the start of a value; [acc] holds the
    values read so far, last first. *)
with parse_array (fuel depth maxd : nat) (s : string) (acc : list pyval)
  : option (result (pyval * string)) :=
  match fuel with
  | O => None
  | S n =>
      match scan_once n depth maxd s with
      | None => None
      | Some (Raise x) => Some (Raise x)
      | Some (Ok (v, rest)) =>
          match skip_whitespace rest with
          | String c rest' =>
              if (c =? "]")%char then Some (Ok (PList (rev (v :: acc)), rest'))
              else if (c =? ",")%char then
                parse_array n depth maxd (skip_whitespace rest') (v :: acc)
              else Some (Raise JSONDecodeError)
          | EmptyString => Some (Raise JSONDecodeError)
          end
      end
  end

(** The members of an object, [s] at the start of a key; [acc] is the
    [dict] built so far. *)
with parse_object (fuel depth maxd : nat) (s : string) (acc : dict)
  : option (result (pyval * string)) :=
  match fuel with
  | O => None
  | S n =>
      match s with
      | String q s1 =>
          if (q =? "034")%char then
            match scanstring "" s1 with
            | Raise x => Some (Raise x)
            | Ok (key, rest) =>
                match skip_whitespace rest with
                | String colon rest1 =>
                    if (colon =? ":")%char then
                      match scan_once n depth maxd (skip_whitespace rest1) with
                      | None => None
                      | Some (Raise x) => Some (Raise x)
                      | Some (Ok (v, rest2)) =>
                          let acc' := dict_setitem acc (PStr key) v in
                          match skip_whitespace rest2 with
                          | String c rest3 =>
                              if (c =? "}")%char then
                                Some (Ok (PDict acc', rest3))
                              else if (c =? ",")%char then
                                parse_object n depth maxd
                                  (skip_whitespace rest3) acc'
                              else Some (Raise JSONDecodeError)
                          | EmptyString => Some (Raise JSONDecodeError)
                          end
                      end
                    else Some (Raise JSONDecodeError)
                | EmptyString => Some (Raise JSONDecodeError)
                end
            end
          else Some (Raise JSONDecodeError)
      | EmptyString => Some (Raise JSONDecodeError)
      end
  end.

(** [json.loads(s)]: one value, white space around it, nothing else.
    The fuel given is enough ([json_facts.loads_total]), so the first
    case below never arises. *)
Definition loads (lim : limits) (s : string) : result pyval :=
  match scan_once (2 * String.length s + 1) (nesting lim)
                  (max_str_digits lim) (skip_whitespace s) with
  | None => Raise RecursionError
  | Some (Raise x) => Raise x
  | Some (Ok (v, rest)) =>
      match skip_whitespace rest with
      | EmptyString => Ok v
      | String _ _ => Raise JSONDecodeError
      end
  end.

End json.

(** ** The body of a method

    A method body runs over the one local variable it updates, [sd_dict]:
    a statement takes the store it finds and leaves the store it made,
    together with its value or the exception it raised. *)

Definition stmt (A : Type) : Type := dict -> dict * result A.

Definition ret {A} (a : A) : stmt A := fun d => (d, Ok a).

Definition seq {A B} (s : stmt A) (k : A -> stmt B) : stmt B :=
  fun d =>
    match s d with
    | (d', Ok a) => k a d'
    | (d', Raise x) => (d', Raise x)
    end.

Declare Scope stmt_scope.
Delimit Scope stmt_scope with stmt.
Notation "x <- s ;; k" := (seq s (fun x => k))
  (at level 61, s at next level, right associativity) : stmt_scope.
Notation "s ;; k" := (seq s (fun _ => k))
  (at level 61, right associativity) : stmt_scope.

(** [sd_dict = {...}] *)
Definition assign (items : list (pyval * pyval)) : stmt unit :=
  fun _ => (dict_display items, Ok tt).

(** [sd_dict.update(arg)] *)
Definition update (arg : pyval) : stmt unit :=
  fun d =>
    match dict_update d arg with
    | (d', None) => (d', Ok tt)
    | (d', Some x) => (d', Raise x)
    end.

(** An expression that may raise. *)
Definition eval {A} (r : result A) : stmt A := fun d => (d, r).

(** [if b: s] *)
Definition when (b : bool) (s : stmt unit) : stmt unit :=
  if b then s else ret tt.

(** [return sd_dict], for a body entered with no local yet. *)
Definition return_sd_dict (body : stmt unit) : result dict :=
  match body [] with
  | (d, Ok _) => Ok d
  | (_, Raise x) => Raise x
  end.

(** ** [MultiSelectBlock] *)

Module MultiSelectBlock.

(** [forms.MultipleChoiceField], as far as [__init__] configures it. *)
Record MultipleChoiceField : Type := mk_field
  { required : bool;
    help_text : option string;
    choices : list (string * string);
    widget : option string }.

Record t : Type := mk { field : MultipleChoiceField }.

(** [__init__(self, required, help_text, choices, widget)] *)
Definition init (required : bool) (help_text : option string)
    (choices : list (string * string)) (widget : option string) : t :=
  mk (mk_field required help_text choices widget).

(** Modelled from the spec: [valid_value] of Django's [ChoiceField], which
    is not under src/.  A token is legal when it is the value of one of the
    configured choices. *)
Definition valid_value (f : MultipleChoiceField) (value : string) : bool :=
  existsb (fun choice => fst choice =? value) (choices f).

(** Modelled from the spec: [validate] of Django's [MultipleChoiceField],
    the field [__init__] delegates to, which is not under src/.  It fails
    with [ValidationError] if [required] is true and the selection is
    empty, or if any selected token is outside the configured choices; the
    tokens are checked in order. *)
Fixpoint validate_tokens (f : MultipleChoiceField) (value : list string)
  : result unit :=
  match value with
  | [] => Ok tt
  | val :: rest =>
      if valid_value f val then validate_tokens f rest
      else Raise ValidationError
  end.

(** Modelled from the spec: see [validate_tokens]. *)
Definition validate (b : t) (value : list string) : result unit :=
  let f := field b in
  match required f, value with
  | true, [] => Raise ValidationError
  | _, _ => validate_tokens f value
  end.

(** [get_searchable_content(self, value)]: [force_str] of a [list] is its
    [str]. *)
Definition get_searchable_content (printable : N -> bool)
    (value : list string) : list string :=
  [ py_str_list printable value ].

End MultiSelectBlock.

(** ** [OpenHoursValue] and [OpenHoursBlock] *)

Module OpenHoursValue.

(** The value of an [OpenHoursBlock]: its three children by name. *)
Record t : Type := mk
  { days : list string;
    start_time : time;
    end_time : time }.

Definition struct_dict (self : t) : dict :=
  dict_display
    [ (PStr "@type", PStr "OpeningHoursSpecification");
      (PStr "dayOfWeek", PList (map PStr (days self)));
      (PStr "opens", PTime (start_time self));
      (PStr "closes", PTime (end_time self)) ].

End OpenHoursValue.

Module OpenHoursBlock.

Definition weekdays : list string :=
  [ "Monday"; "Tuesday"; "Wednesday"; "Thursday"; "Friday"; "Saturday";
    "Sunday" ].

(** The [days] child: each choice pairs a weekday with its label. *)
Definition days : MultiSelectBlock.t :=
  MultiSelectBlock.init true
    (Some
       "For late night hours past 23:59, define each day in a separate block.")
    (map (fun d => (d, d)) weekdays)
    (Some "CheckboxSelectMultiple").

End OpenHoursBlock.

(** ** [StructuredDataActionValue] *)

Module StructuredDataActionValue.

(** The value of a [StructuredDataActionBlock]: its seven children. *)
Record t : Type := mk
  { action_type : string;
    target : string;
    query : string;
    language : string;
    result_type : string;
    result_name : string;
    extra_json : string }.

Definition action_platform : pyval :=
  PList [ PStr "http://schema.org/DesktopWebPlatform";
          PStr "http://schema.org/IOSPlatform";
          PStr "http://schema.org/AndroidPlatform" ].

Definition body (lim : json.limits) (self : t) : stmt unit :=
  ((if action_type self =? "SearchAction" then
      assign
        [ (PStr "@type", PStr (action_type self));
          (PStr "target", PStr (target self));
          (PStr "query", PStr (query self)) ]
    else
      assign
        [ (PStr "@type", PStr (action_type self));
          (PStr "target",
           PDict (dict_display
             [ (PStr "@type", PStr "EntryPoint");
               (PStr "urlTemplate", PStr (target self));
               (PStr "inLanguage", PStr (language self));
               (PStr "actionPlatform", action_platform) ])) ]) ;;
   when (truthy (result_type self))
     (update
        (PDict (dict_display
           [ (PStr "result",
              PDict (dict_display
                [ (PStr "@type", PStr (result_type self));
                  (PStr "name", PStr (result_name self)) ])) ]))) ;;
   when (truthy (extra_json self))
     (arg <- eval (json.loads lim (extra_json self)) ;;
      update arg))%stmt.

Definition struct_dict (lim : json.limits) (self : t) : result dict :=
  return_sd_dict (body lim self).

End StructuredDataActionValue.

(** * Specification

    The notions the properties are stated with: the invariant of a
    dictionary, what [dict.update] can merge, and the output the
    specification describes for each projection, step by step. *)

Local Open Scope list_scope.

(** ** Dictionaries *)

(** The invariant of a [dict]: hashable keys, no two of them the same. *)
Fixpoint distinct_keys (d : dict) : Prop :=
  match d with
  | [] => True
  | (k, _) :: d' =>
      hashable k = true /\ dict_get d' k = None /\ distinct_keys d'
  end.

(** A decoded value that is an object is such a dictionary. *)
Definition top_distinct (v : pyval) : Prop :=
  match v with
  | PDict d => distinct_keys d
  | _ => True
  end.

(** ** What [dict.update] accepts *)

(** The key and the value an element of an iterable of pairs stands for:
    a two-item array with a hashable first item, a string of two code
    points, or an object of two members (read as its two keys). *)
Definition pair_of (item : pyval) : option (pyval * pyval) :=
  match item with
  | PList [k; v] => if hashable k then Some (k, v) else None
  | PStr s =>
      match chars s with
      | [a; b] => Some (PStr a, PStr b)
      | _ => None
      end
  | PDict [(k1, _); (k2, _)] => if hashable k1 then Some (k1, k2) else None
  | _ => None
  end.

Fixpoint all_pairs (items : list pyval) : option (list (pyval * pyval)) :=
  match items with
  | [] => Some []
  | item :: rest =>
      match pair_of item, all_pairs rest with
      | Some p, Some ps => Some (p :: ps)
      | _, _ => None
      end
  end.

(** The items a decoded value lays over a dictionary, when it can be read
    as a mapping or as pairs. *)
Definition overlay_items (v : pyval) : option (list (pyval * pyval)) :=
  match v with
  | PDict d => Some d
  | PList l => all_pairs l
  | PStr s => all_pairs (map PStr (chars s))
  | _ => None
  end.

(** ** The Action projection, step by step *)

Import StructuredDataActionValue.

(** The [EntryPoint] object of the specification's Step 1. *)
Definition entry_point (self : StructuredDataActionValue.t) : pyval :=
  PDict [ (PStr "@type", PStr "EntryPoint");
          (PStr "urlTemplate", PStr (target self));
          (PStr "inLanguage", PStr (language self));
          (PStr "actionPlatform",
           PList [ PStr "http://schema.org/DesktopWebPlatform";
                   PStr "http://schema.org/IOSPlatform";
                   PStr "http://schema.org/AndroidPlatform" ]) ].

(** Step 1 of the specification: the base shape, keyed on [action_type]. *)
Definition step1 (self : StructuredDataActionValue.t) : dict :=
  if action_type self =? "SearchAction" then
    [ (PStr "@type", PStr "SearchAction");
      (PStr "target", PStr (target self));
      (PStr "query", PStr (query self)) ]
  else
    [ (PStr "@type", PStr (action_type self));
      (PStr "target", entry_point self) ].

(** The [result] object of the specification's Step 2. *)
Definition result_object (self : StructuredDataActionValue.t) : pyval :=
  PDict [ (PStr "@type", PStr (result_type self));
          (PStr "name", PStr (result_name self)) ].

(** Steps 1 and 2 of the specification: the dictionary before the
    free-form overlay. *)
Definition steps12 (self : StructuredDataActionValue.t) : dict :=
  if truthy (result_type self)
  then step1 self ++ [ (PStr "result", result_object self) ]
  else step1 self.

(** The items [extra_json] lays over Steps 1 and 2: none when it is empty,
    [None] when it cannot be decoded or merged. *)
Definition overlay (lim : json.limits) (self : StructuredDataActionValue.t)
  : option (list (pyval * pyval)) :=
  if truthy (extra_json self) then
    match json.loads lim (extra_json self) with
    | Ok v => overlay_items v
    | Raise _ => None
    end
  else Some [].

(** An entry that differs from [self] in [query] only. *)
Definition with_query (self : StructuredDataActionValue.t) (q : string)
  : StructuredDataActionValue.t :=
  mk (action_type self) (target self) q (language self)
     (result_type self) (result_name self) (extra_json self).

(** An entry that differs from [self] in [language] only. *)
Definition with_language (self : StructuredDataActionValue.t) (l : string)
  : StructuredDataActionValue.t :=
  mk (action_type self) (target self) (query self) l
     (result_type self) (result_name self) (extra_json self).

(** A JSON string literal: [s] between two quotation marks (byte 34). *)
Definition quoted (s : string) : string :=
  String "034" (s ++ String "034" "")%string.

(** ** The OpeningHours projection as specified *)

(** A number below 100 on two decimal digits. *)
Definition two_digits (n : nat) : string :=
  String (ascii_of_nat (48 + n / 10))
    (String (ascii_of_nat (48 + n mod 10)) "").

(** The specification's serialization of a time of day: 24-hour
    "HH:MM". *)
Definition time_HHMM (t : time) : string :=
  (two_digits (hour t) ++ ":" ++ two_digits (minute t))%string.

(** The output the specification describes in its section 4.2, with
    "opens" and "closes" as "HH:MM" strings. *)
Definition OpeningHours_spec (self : OpenHoursValue.t) : dict :=
  [ (PStr "@type", PStr "OpeningHoursSpecification");
    (PStr "dayOfWeek", PList (map PStr (OpenHoursValue.days self)));
    (PStr "opens", PStr (time_HHMM (OpenHoursValue.start_time self)));
    (PStr "closes", PStr (time_HHMM (OpenHoursValue.end_time self))) ].

(** The limits of an interpreter as it comes: some thousand nested
    calls left and the default limit on the digits of an [int]. *)
Definition default_limits : json.limits := json.mk_limits 1000 4300.

(** ** Notions for the further properties *)

(** An entry that differs from [self] in [extra_json] only. *)
Definition with_extra_json (self : StructuredDataActionValue.t) (e : string)
  : StructuredDataActionValue.t :=
  mk (action_type self) (target self) (query self) (language self)
     (result_type self) (result_name self) e.

(** An entry that differs from [self] in [result_type] and [result_name]
    only. *)
Definition with_result (self : StructuredDataActionValue.t)
    (rt rn : string) : StructuredDataActionValue.t :=
  mk (action_type self) (target self) (query self) (language self)
     rt rn (extra_json self).

(** A text of white space only: spaces, tabs, line feeds and carriage
    returns. *)
Fixpoint all_whitespace (s : string) : bool :=
  match s with
  | EmptyString => true
  | String c s' => json.is_whitespace c && all_whitespace s'
  end.

(** A decoded [null], boolean or number. *)
Definition json_scalar (v : pyval) : bool :=
  match v with
  | PNone | PBool _ | PInt _ | PFloat _ => true
  | _ => false
  end.

(** A printable ASCII character other than the apostrophe (39) and the
    backslash (92): [repr] copies it. *)
Definition plain_char (c : ascii) : bool :=
  let n := N_of_ascii c in
  ((32 <=? n) && (n <? 127) && negb (n =? 39) && negb (n =? 92))%N.

(** A token of such characters only, as the weekday names are. *)
Fixpoint plain (s : string) : bool :=
  match s with
  | EmptyString => true
  | String c s' => plain_char c && plain s'
  end.

(** [t] between two apostrophes. *)
Definition apostrophes (t : string) : string :=
  String "039" (t ++ String "039" "")%string.

(** * Properties *)

(** ** Keys and dictionaries *)

Lemma same_key_sym (a b : pyval) : same_key a b = same_key b a.
Proof.
  unfold same_key.
  destruct (py_hash a) as [x|], (py_hash b) as [y|]; try reflexivity.
  destruct (hkey_eq_dec x y), (hkey_eq_dec y x); congruence.
Qed.

Lemma same_key_trans (a b c : pyval) :
  same_key a b = true -> same_key b c = same_key a c.
Proof.
  unfold same_key.
  destruct (py_hash a) as [x|], (py_hash b) as [y|]; try discriminate.
  destruct (hkey_eq_dec x y); [subst; reflexivity | discriminate].
Qed.

Lemma same_key_refl (k : pyval) : hashable k = true -> same_key k k = true.
Proof.
  unfold hashable, same_key. destruct (py_hash k) as [x|]; [|discriminate].
  intros _. destruct (hkey_eq_dec x x); congruence.
Qed.

(** Every JSON scalar can be a key; arrays and objects cannot. *)
Lemma hashable_scalar (k : pyval) :
  hashable k = false <-> (exists l, k = PList l) \/ (exists d, k = PDict d).
Proof.
  split.
  - destruct k; try discriminate; eauto.
  - intros [[l ->] | [d ->]]; reflexivity.
Qed.

Lemma same_key_hashable (a b : pyval) :
  same_key a b = true -> hashable a = true /\ hashable b = true.
Proof.
  unfold same_key, hashable.
  destruct (py_hash a), (py_hash b); intros; try discriminate; auto.
Qed.

(** Reading after a store: the stored key answers with the new value, any
    other key as before. *)
Lemma dict_get_setitem (d : dict) (k v k' : pyval) :
  dict_get (dict_setitem d k v) k' =
  if same_key k k' then Some v else dict_get d k'.
Proof.
  induction d as [|[k0 v0] d IH]; simpl.
  - reflexivity.
  - destruct (same_key k0 k) eqn:E0; simpl.
    + rewrite (same_key_trans _ _ k' E0).
      destruct (same_key k0 k'); reflexivity.
    + rewrite IH. destruct (same_key k0 k') eqn:E1; [|reflexivity].
      destruct (same_key k k') eqn:E2; [|reflexivity].
      rewrite same_key_sym in E2.
      rewrite (same_key_trans _ _ k E1), E0 in E2. discriminate.
Qed.

(** Merging [items] into [d] reads like merging them into an empty
    dictionary laid over [d]. *)
Lemma dict_get_merge (d : dict) (items : list (pyval * pyval)) (k : pyval) :
  dict_get (dict_merge d items) k =
  match dict_get (dict_merge [] items) k with
  | Some v => Some v
  | None => dict_get d k
  end.
Proof.
  unfold dict_merge.
  assert (G : forall d1 d2,
    (forall k, dict_get d1 k =
       match dict_get d2 k with Some v => Some v | None => dict_get d k end) ->
    forall k, dict_get (fold_left
        (fun acc kv => dict_setitem acc (fst kv) (snd kv)) items d1) k =
      match dict_get (fold_left
        (fun acc kv => dict_setitem acc (fst kv) (snd kv)) items d2) k with
      | Some v => Some v
      | None => dict_get d k
      end).
  { induction items as [|[k1 v1] items IH]; intros d1 d2 H; simpl.
    - exact H.
    - apply IH. intros k0. rewrite !dict_get_setitem.
      destruct (same_key k1 k0); [reflexivity | apply H]. }
  apply G. reflexivity.
Qed.

Lemma distinct_keys_setitem (d : dict) (k v : pyval) :
  hashable k = true -> distinct_keys d -> distinct_keys (dict_setitem d k v).
Proof.
  intros Hk. induction d as [|[k0 v0] d IH]; simpl.
  - auto.
  - intros (H0 & Hn & Hd). destruct (same_key k0 k) eqn:E; simpl.
    + auto.
    + repeat split; auto. rewrite dict_get_setitem.
      rewrite same_key_sym, E. exact Hn.
Qed.

Lemma distinct_keys_merge (items : list (pyval * pyval)) (d : dict) :
  Forall (fun kv => hashable (fst kv) = true) items ->
  distinct_keys d -> distinct_keys (dict_merge d items).
Proof.
  unfold dict_merge. revert d.
  induction items as [|[k v] items IH]; intros d HF Hd; simpl.
  - exact Hd.
  - inversion HF; subst. apply IH; [assumption|].
    apply distinct_keys_setitem; assumption.
Qed.

Lemma dict_setitem_new (d : dict) (k v : pyval) :
  dict_get d k = None -> dict_setitem d k v = d ++ [(k, v)].
Proof.
  induction d as [|[k0 v0] d IH]; simpl; [reflexivity|].
  destruct (same_key k0 k); [discriminate|].
  intros H. rewrite IH; auto.
Qed.

Lemma dict_get_app_None (d1 d2 : dict) (k : pyval) :
  dict_get (d1 ++ d2) k = None ->
  dict_get d1 k = None /\ dict_get d2 k = None.
Proof.
  induction d1 as [|[k0 v0] d1 IH]; simpl; [auto|].
  destruct (same_key k0 k); [discriminate | exact IH].
Qed.

Lemma distinct_keys_app (d1 d2 : dict) :
  distinct_keys (d1 ++ d2) -> distinct_keys d2.
Proof.
  induction d1 as [|[k0 v0] d1 IH]; simpl; [auto|].
  intros (_ & _ & H). auto.
Qed.

Lemma distinct_keys_middle (d1 d2 : dict) (k v : pyval) :
  distinct_keys (d1 ++ (k, v) :: d2) -> dict_get d1 k = None.
Proof.
  induction d1 as [|[k0 v0] d1 IH]; simpl; [reflexivity|].
  intros (_ & Hn & Hd). apply dict_get_app_None in Hn as [_ Hn].
  simpl in Hn. rewrite same_key_sym.
  destruct (same_key k k0); [discriminate | auto].
Qed.

(** Storing the items of a dictionary into an empty one rebuilds it. *)
Lemma dict_merge_distinct (items d : dict) :
  distinct_keys (d ++ items) -> dict_merge d items = d ++ items.
Proof.
  unfold dict_merge. revert d.
  induction items as [|[k v] items IH]; intros d H; simpl.
  - now rewrite app_nil_r.
  - assert (Hn : dict_get d k = None).
    { pose proof (distinct_keys_middle _ _ _ _ H) as H1. exact H1. }
    rewrite (dict_setitem_new _ _ v Hn).
    replace (d ++ (k, v) :: items) with ((d ++ [(k, v)]) ++ items) in *
      by (rewrite <- app_assoc; reflexivity).
    apply IH. exact H.
Qed.

Lemma dict_display_distinct (d : dict) :
  distinct_keys d -> dict_display d = d.
Proof. intros H. apply (dict_merge_distinct d []). exact H. Qed.

(** ** The decoder terminates

    Every value the descent returns has consumed some text, so fuel of
    twice the length of the text is never exhausted: the only
    [RecursionError] of [json.loads] is the one of the interpreter, for
    arrays and objects nested deeper than [nesting] allows. *)

Module json_facts.
Import json.

Lemma skip_whitespace_length (s : string) :
  String.length (skip_whitespace s) <= String.length s.
Proof.
  induction s as [|c s IH]; simpl; [lia|].
  destruct (is_whitespace c); simpl; lia.
Qed.

Lemma scan_digits_length (s : string) :
  forall acc n a m rest,
    scan_digits s acc n = (a, m, rest) ->
    String.length rest <= String.length s.
Proof.
  induction s as [|c s IH]; simpl; intros acc n a m rest H.
  - inversion H; subst; simpl; lia.
  - destruct (is_digit c).
    + apply IH in H. lia.
    + inversion H; subst; simpl; lia.
Qed.

Lemma starts_with_length (p : string) :
  forall s rest,
    starts_with p s = Some rest ->
    String.length s = String.length p + String.length rest.
Proof.
  induction p as [|a p IH]; simpl; intros s rest H.
  - inversion H; subst; reflexivity.
  - destruct s as [|b s]; [discriminate|].
    destruct (a =? b)%char; [|discriminate].
    apply IH in H. simpl. lia.
Qed.

Lemma scan_constant_length (s : string) (v : pyval) (rest : string) :
  scan_constant s = Some (v, rest) -> String.length rest < String.length s.
Proof.
  unfold scan_constant. intros H.
  repeat match type of H with
  | context [starts_with ?p s] =>
      let E := fresh "E" in
      destruct (starts_with p s) eqn:E;
      [ apply starts_with_length in E; inversion H; subst; simpl in E; lia | ]
  end.
  discriminate.
Qed.

Lemma scan_sign_length (s : string) (neg : bool) (rest : string) :
  scan_sign s = (neg, rest) -> String.length rest <= String.length s.
Proof.
  destruct s as [|c s]; simpl; intros H.
  - inversion H; subst; simpl; lia.
  - destruct (c =? "-")%char; inversion H; subst; simpl; lia.
Qed.

Lemma scan_int_length (s : string) (int : Z) (n : nat) (rest : string) :
  scan_int s = Some (int, n, rest) -> String.length rest < String.length s.
Proof.
  destruct s as [|c s]; simpl; intros H; [discriminate|].
  destruct (c =? "0")%char.
  - inversion H; subst; lia.
  - destruct (is_digit c); [|discriminate].
    inversion H as [E]. apply scan_digits_length in E. lia.
Qed.

Lemma scan_frac_length (s : string) (frac : option (Z * nat)) (rest : string) :
  scan_frac s = (frac, rest) -> String.length rest <= String.length s.
Proof.
  unfold scan_frac. intros H.
  destruct s as [|dot [|d t]]; try (inversion H; subst; simpl; lia).
  destruct ((dot =? ".")%char && is_digit d).
  - destruct (scan_digits (String d t) 0 0) as [[f n] r] eqn:E.
    inversion H; subst. apply scan_digits_length in E. simpl in *. lia.
  - inversion H; subst; simpl; lia.
Qed.

Lemma scan_exp_length (s : string) (exp : option Z) (rest : string) :
  scan_exp s = (exp, rest) -> String.length rest <= String.length s.
Proof.
  unfold scan_exp. intros H.
  destruct s as [|e t]; [inversion H; subst; simpl; lia|].
  destruct ((e =? "e")%char || (e =? "E")%char);
    [|inversion H; subst; simpl; lia].
  assert (L : forall (neg : bool) t1,
    String.length t1 <= String.length t ->
    match scan_digits t1 0 0 with
    | (_, O, _) => (None, String e t)
    | (x, _, r) => (Some (if neg then (- x)%Z else x), r)
    end = (exp, rest) -> String.length rest <= String.length (String e t)).
  { intros neg t1 Ht1 H1.
    destruct (scan_digits t1 0 0) as [[x n] r] eqn:E.
    (* the digits, their count and what follows them *)
    apply scan_digits_length in E.
    destruct n; inversion H1; subst; simpl in *; lia. }
  destruct t as [|sign t'].
  - apply (L false EmptyString); [simpl; lia | exact H].
  - destruct (sign =? "-")%char; [|destruct (sign =? "+")%char].
    + apply (L true t'); [simpl; lia | exact H].
    + apply (L false t'); [simpl; lia | exact H].
    + apply (L false (String sign t')); [simpl; lia | exact H].
Qed.

Lemma match_number_length (maxd : nat) (s : string) (v : pyval)
    (rest : string) :
  match_number maxd s = Ok (v, rest) -> String.length rest < String.length s.
Proof.
  unfold match_number. intros H.
  destruct (scan_sign s) as [neg s1] eqn:E1.
  destruct (scan_int s1) as [[[int n] s2]|] eqn:E2; [|discriminate].
  destruct (scan_frac s2) as [frac s3] eqn:E3.
  destruct (scan_exp s3) as [exp s4] eqn:E4.
  apply scan_sign_length in E1. apply scan_int_length in E2.
  apply scan_frac_length in E3. apply scan_exp_length in E4.
  destruct frac as [[f k]|], exp;
    try destruct (exceeds_max_str_digits maxd n);
    inversion H; subst; lia.
Qed.

Lemma scanstring_length (n : nat) :
  forall s acc str rest,
    String.length s <= n ->
    scanstring acc s = Ok (str, rest) ->
    String.length rest < String.length s.
Proof.
  induction n as [|n IH]; intros s acc str rest Hn H.
  - destruct s; [discriminate | simpl in Hn; lia].
  - destruct s as [|c s1]; [discriminate|].
    simpl in H.
    repeat match type of H with
    | (if ?b then _ else _) = _ => destruct b
    | match ?x with _ => _ end = _ => destruct x
    end;
    try discriminate;
    try (inversion H; subst; simpl; lia);
    apply IH in H; simpl in *; lia.
Qed.

Ltac whitespace_bounds :=
  repeat match goal with
  | H : context [skip_whitespace ?x] |- _ =>
      lazymatch goal with
      | _ : String.length (skip_whitespace x) <= String.length x |- _ => fail
      | _ => pose proof (skip_whitespace_length x)
      end
  | |- context [skip_whitespace ?x] =>
      lazymatch goal with
      | _ : String.length (skip_whitespace x) <= String.length x |- _ => fail
      | _ => pose proof (skip_whitespace_length x)
      end
  end.

(** A value that is returned has consumed at least one character. *)
Lemma scan_progress (maxd fuel : nat) :
  (forall depth s v rest,
      scan_once fuel depth maxd s = Some (Ok (v, rest)) ->
      String.length rest < String.length s) /\
  (forall depth s acc v rest,
      parse_array fuel depth maxd s acc = Some (Ok (v, rest)) ->
      String.length rest < String.length s) /\
  (forall depth s acc v rest,
      parse_object fuel depth maxd s acc = Some (Ok (v, rest)) ->
      String.length rest < String.length s).
Proof.
  induction fuel as [|n (IH1 & IH2 & IH3)];
    [repeat split; intros; discriminate|].
  repeat split.
  - intros depth s v rest H. cbn [scan_once] in H.
    destruct s as [|c s']; [discriminate|].
    destruct (c =? "034")%char.
    { destruct (scanstring "" s') as [[str r]|x] eqn:E; [|discriminate].
      apply (scanstring_length _ _ _ _ _ (le_n _)) in E.
      inversion H; subst. simpl. lia. }
    destruct (c =? "{")%char.
    { destruct depth as [|depth']; [discriminate|].
      destruct (skip_whitespace s') as [|c' r] eqn:Ew; [discriminate|].
      whitespace_bounds. rewrite Ew in *.
      destruct (c' =? "}")%char.
      - inversion H; subst. simpl in *. lia.
      - apply IH3 in H. simpl in *. lia. }
    destruct (c =? "[")%char.
    { destruct depth as [|depth']; [discriminate|].
      destruct (skip_whitespace s') as [|c' r] eqn:Ew; [discriminate|].
      whitespace_bounds. rewrite Ew in *.
      destruct (c' =? "]")%char.
      - inversion H; subst. simpl in *. lia.
      - apply IH2 in H. simpl in *. lia. }
    destruct (scan_constant (String c s')) as [[v0 r0]|] eqn:E.
    + inversion H; subst. apply scan_constant_length in E. exact E.
    + inversion H as [H1]. apply match_number_length in H1. exact H1.
  - intros depth s acc v rest H. cbn [parse_array] in H.
    destruct (scan_once n depth maxd s) as [[[v0 r0]|x]|] eqn:E;
      try discriminate.
    apply IH1 in E.
    destruct (skip_whitespace r0) as [|c r1] eqn:Ew; [discriminate|].
    whitespace_bounds. rewrite Ew in *.
    destruct (c =? "]")%char.
    + inversion H; subst. simpl in *. lia.
    + destruct (c =? ",")%char; [|discriminate].
      apply IH2 in H. whitespace_bounds. simpl in *. lia.
  - intros depth s acc v rest H. cbn [parse_object] in H.
    destruct s as [|q s1]; [discriminate|].
    destruct (q =? "034")%char; [|discriminate].
    destruct (scanstring "" s1) as [[key r0]|x] eqn:Es; [|discriminate].
    apply (scanstring_length _ _ _ _ _ (le_n _)) in Es.
    destruct (skip_whitespace r0) as [|colon r1] eqn:Ew0; [discriminate|].
    destruct (colon =? ":")%char; [|discriminate].
    destruct (scan_once n depth maxd (skip_whitespace r1))
      as [[[v0 r2]|x]|] eqn:E; try discriminate.
    apply IH1 in E.
    destruct (skip_whitespace r2) as [|c r3] eqn:Ew2; [discriminate|].
    whitespace_bounds. rewrite Ew0, Ew2 in *.
    destruct (c =? "}")%char.
    + inversion H; subst. simpl in *. lia.
    + destruct (c =? ",")%char; [|discriminate].
      apply IH3 in H. whitespace_bounds. simpl in *. lia.
Qed.

(** Fuel beyond twice the length of the text is never used up. *)
Lemma scan_fuel (maxd fuel : nat) :
  (forall depth s,
      2 * String.length s < fuel -> scan_once fuel depth maxd s <> None) /\
  (forall depth s acc,
      2 * String.length s + 1 < fuel ->
      parse_array fuel depth maxd s acc <> None) /\
  (forall depth s acc,
      2 * String.length s + 1 < fuel ->
      parse_object fuel depth maxd s acc <> None).
Proof.
  induction fuel as [|n (IH1 & IH2 & IH3)];
    [repeat split; intros; lia|].
  repeat split.
  - intros depth s Hf. cbn [scan_once].
    destruct s as [|c s']; [discriminate|]. simpl in Hf.
    destruct (c =? "034")%char; [discriminate|].
    destruct (c =? "{")%char.
    { destruct depth as [|depth']; [discriminate|].
      destruct (skip_whitespace s') as [|c' r] eqn:Ew; [discriminate|].
      whitespace_bounds. rewrite Ew in *.
      destruct (c' =? "}")%char; [discriminate|].
      apply IH3. simpl in *. lia. }
    destruct (c =? "[")%char.
    { destruct depth as [|depth']; [discriminate|].
      destruct (skip_whitespace s') as [|c' r] eqn:Ew; [discriminate|].
      whitespace_bounds. rewrite Ew in *.
      destruct (c' =? "]")%char; [discriminate|].
      apply IH2. simpl in *. lia. }
    destruct (scan_constant (String c s')) as [[v0 r0]|]; discriminate.
  - intros depth s acc Hf. cbn [parse_array].
    destruct (scan_once n depth maxd s) as [[[v0 r0]|x]|] eqn:E;
      try discriminate.
    + apply (proj1 (scan_progress maxd n)) in E.
      destruct (skip_whitespace r0) as [|c r1] eqn:Ew; [discriminate|].
      whitespace_bounds. rewrite Ew in *.
      destruct (c =? "]")%char; [discriminate|].
      destruct (c =? ",")%char; [|discriminate].
      apply IH2. whitespace_bounds. simpl in *. lia.
    + exfalso. revert E. apply IH1. lia.
  - intros depth s acc Hf. cbn [parse_object].
    destruct s as [|q s1]; [discriminate|]. simpl in Hf.
    destruct (q =? "034")%char; [|discriminate].
    destruct (scanstring "" s1) as [[key r0]|x] eqn:Es; [|discriminate].
    apply (scanstring_length _ _ _ _ _ (le_n _)) in Es.
    destruct (skip_whitespace r0) as [|colon r1] eqn:Ew0; [discriminate|].
    destruct (colon =? ":")%char; [|discriminate].
    whitespace_bounds. rewrite Ew0 in *.
    destruct (scan_once n depth maxd (skip_whitespace r1))
      as [[[v0 r2]|x]|] eqn:E; try discriminate.
    + apply (proj1 (scan_progress maxd n)) in E.
      destruct (skip_whitespace r2) as [|c r3] eqn:Ew2; [discriminate|].
      whitespace_bounds. rewrite Ew2 in *.
      destruct (c =? "}")%char; [discriminate|].
      destruct (c =? ",")%char; [|discriminate].
      apply IH3. whitespace_bounds. simpl in *. lia.
    + exfalso. revert E. apply IH1. whitespace_bounds. simpl in *. lia.
Qed.

(** [loads] never runs out of fuel. *)
Lemma loads_total (lim : limits) (s : string) :
  scan_once (2 * String.length s + 1) (nesting lim) (max_str_digits lim)
            (skip_whitespace s) <> None.
Proof.
  apply (proj1 (scan_fuel _ _)).
  pose proof (skip_whitespace_length s). lia.
Qed.

Lemma scanstring_raises (n : nat) :
  forall s acc x,
    String.length s <= n -> scanstring acc s = Raise x -> x = JSONDecodeError.
Proof.
  induction n as [|n IH]; intros s acc x Hn H.
  - destruct s; [inversion H; reflexivity | simpl in Hn; lia].
  - destruct s as [|c s1]; [inversion H; reflexivity|].
    simpl in H.
    repeat match type of H with
    | (if ?b then _ else _) = _ => destruct b
    | match ?x with _ => _ end = _ => destruct x
    end;
    try discriminate;
    try (inversion H; subst; reflexivity);
    apply IH in H; simpl in *; auto; lia.
Qed.

Lemma match_number_raises (maxd : nat) (s : string) (x : exn) :
  match_number maxd s = Raise x -> x = JSONDecodeError \/ x = ValueError.
Proof.
  unfold match_number.
  destruct (scan_sign s) as [neg s1].
  destruct (scan_int s1) as [[[int n] s2]|]; [|intros H; inversion H; auto].
  destruct (scan_frac s2) as [[[f k]|] s3];
    destruct (scan_exp s3) as [[e|] s4]; try discriminate.
  destruct (exceeds_max_str_digits maxd n); [|discriminate].
  intros H. inversion H; auto.
Qed.

(** Every exception of the descent is a [JSONDecodeError], or the
    [RecursionError] or [ValueError] of a limit. *)
Lemma scan_raises (maxd fuel : nat) :
  (forall depth s x,
      scan_once fuel depth maxd s = Some (Raise x) ->
      x = JSONDecodeError \/ x = RecursionError \/ x = ValueError) /\
  (forall depth s acc x,
      parse_array fuel depth maxd s acc = Some (Raise x) ->
      x = JSONDecodeError \/ x = RecursionError \/ x = ValueError) /\
  (forall depth s acc x,
      parse_object fuel depth maxd s acc = Some (Raise x) ->
      x = JSONDecodeError \/ x = RecursionError \/ x = ValueError).
Proof.
  induction fuel as [|n (IH1 & IH2 & IH3)];
    [repeat split; intros; discriminate|].
  repeat split.
  - intros depth s x H. cbn [scan_once] in H.
    destruct s as [|c s']; [inversion H; auto|].
    destruct (c =? "034")%char.
    { destruct (scanstring "" s') as [[str r]|y] eqn:E; [discriminate|].
      apply (scanstring_raises _ _ _ _ (le_n _)) in E.
      inversion H; subst. auto. }
    destruct (c =? "{")%char.
    { destruct depth as [|depth']; [inversion H; auto|].
      destruct (skip_whitespace s') as [|c' r]; [inversion H; auto|].
      destruct (c' =? "}")%char; [discriminate | eauto]. }
    destruct (c =? "[")%char.
    { destruct depth as [|depth']; [inversion H; auto|].
      destruct (skip_whitespace s') as [|c' r]; [inversion H; auto|].
      destruct (c' =? "]")%char; [discriminate | eauto]. }
    destruct (scan_constant (String c s')) as [[v0 r0]|]; [discriminate|].
    inversion H as [H1]. apply match_number_raises in H1. tauto.
  - intros depth s acc x H. cbn [parse_array] in H.
    destruct (scan_once n depth maxd s) as [[[v0 r0]|y]|] eqn:E;
      try discriminate.
    + destruct (skip_whitespace r0) as [|c r1]; [inversion H; auto|].
      destruct (c =? "]")%char; [discriminate|].
      destruct (c =? ",")%char; [eauto | inversion H; auto].
    + inversion H; subst. eauto.
  - intros depth s acc x H. cbn [parse_object] in H.
    destruct s as [|q s1]; [inversion H; auto|].
    destruct (q =? "034")%char; [|inversion H; auto].
    destruct (scanstring "" s1) as [[key r0]|y] eqn:Es.
    2:{ apply (scanstring_raises _ _ _ _ (le_n _)) in Es.
        inversion H; subst. auto. }
    destruct (skip_whitespace r0) as [|colon r1]; [inversion H; auto|].
    destruct (colon =? ":")%char; [|inversion H; auto].
    destruct (scan_once n depth maxd (skip_whitespace r1))
      as [[[v0 r2]|y]|] eqn:E; try discriminate.
    + destruct (skip_whitespace r2) as [|c r3]; [inversion H; auto|].
      destruct (c =? "}")%char; [discriminate|].
      destruct (c =? ",")%char; [eauto | inversion H; auto].
    + inversion H; subst. eauto.
Qed.

(** [json.loads] returns a value or raises [JSONDecodeError], or the
    [RecursionError] or [ValueError] of a limit. *)
Lemma loads_raises (lim : limits) (s : string) (x : exn) :
  loads lim s = Raise x ->
  x = JSONDecodeError \/ x = RecursionError \/ x = ValueError.
Proof.
  unfold loads. pose proof (loads_total lim s) as T.
  destruct (scan_once _ _ _ _) as [[[v rest]|y]|] eqn:E; [| |congruence].
  - destruct (skip_whitespace rest); intros H; inversion H; auto.
  - intros H. inversion H; subst.
    apply (proj1 (scan_raises _ _)) in E. exact E.
Qed.

(** *** Within the limits

    A text no longer than the nesting the interpreter allows, and with
    no more characters than an [int] may have digits, meets no limit:
    the only exception of the decoder is then [JSONDecodeError]. *)







(** *** Objects are dictionaries *)

Lemma scan_constant_top (s : string) (v : pyval) (rest : string) :
  scan_constant s = Some (v, rest) -> top_distinct v.
Proof.
  unfold scan_constant. intros H.
  repeat match type of H with
  | context [starts_with ?p s] =>
      destruct (starts_with p s); [inversion H; subst; exact I | ]
  end.
  discriminate.
Qed.

Lemma match_number_top (maxd : nat) (s : string) (v : pyval)
    (rest : string) :
  match_number maxd s = Ok (v, rest) -> top_distinct v.
Proof.
  unfold match_number.
  destruct (scan_sign s) as [neg s1].
  destruct (scan_int s1) as [[[int n] s2]|]; [|discriminate].
  destruct (scan_frac s2) as [[[f k]|] s3];
    destruct (scan_exp s3) as [[e|] s4];
    try destruct (exceeds_max_str_digits maxd n);
    intros H; inversion H; subst; exact I.
Qed.

(** The members of an object the decoder returns have distinct keys: a
    repeated member name keeps its first place and its last value. *)
Lemma scan_distinct (maxd fuel : nat) :
  (forall depth s v rest,
      scan_once fuel depth maxd s = Some (Ok (v, rest)) -> top_distinct v) /\
  (forall depth s acc v rest,
      distinct_keys acc ->
      parse_object fuel depth maxd s acc = Some (Ok (v, rest)) ->
      top_distinct v).
Proof.
  induction fuel as [|n (IH1 & IH3)];
    [repeat split; intros; discriminate|].
  repeat split.
  - intros depth s v rest H. cbn [scan_once] in H.
    destruct s as [|c s']; [discriminate|].
    destruct (c =? "034")%char.
    { destruct (scanstring "" s') as [[str r]|x]; [|discriminate].
      inversion H; subst. exact I. }
    destruct (c =? "{")%char.
    { destruct depth as [|depth']; [discriminate|].
      destruct (skip_whitespace s') as [|c' r]; [discriminate|].
      destruct (c' =? "}")%char.
      - inversion H; subst. exact I.
      - eapply IH3; [|exact H]. exact I. }
    destruct (c =? "[")%char.
    { destruct depth as [|depth']; [discriminate|].
      destruct (skip_whitespace s') as [|c' r]; [discriminate|].
      destruct (c' =? "]")%char; [inversion H; subst; exact I|].
      clear - H. revert H. generalize (@nil pyval) (String c' r).
      induction n as [|m IHm]; intros acc s H; [discriminate|].
      cbn [parse_array] in H.
      destruct (scan_once m depth' maxd s) as [[[v0 r0]|x]|];
        try discriminate.
      destruct (skip_whitespace r0) as [|c r1]; [discriminate|].
      destruct (c =? "]")%char; [inversion H; subst; exact I|].
      destruct (c =? ",")%char; [eauto | discriminate]. }
    destruct (scan_constant (String c s')) as [[v0 r0]|] eqn:E.
    + inversion H; subst. eapply scan_constant_top; eauto.
    + inversion H as [H1]. eapply match_number_top; eauto.
  - intros depth s acc v rest Hacc H. cbn [parse_object] in H.
    destruct s as [|q s1]; [discriminate|].
    destruct (q =? "034")%char; [|discriminate].
    destruct (scanstring "" s1) as [[key r0]|x]; [|discriminate].
    destruct (skip_whitespace r0) as [|colon r1]; [discriminate|].
    destruct (colon =? ":")%char; [|discriminate].
    destruct (scan_once n depth maxd (skip_whitespace r1))
      as [[[v0 r2]|x]|]; try discriminate.
    assert (Hacc' : distinct_keys (dict_setitem acc (PStr key) v0))
      by (apply distinct_keys_setitem; [reflexivity | exact Hacc]).
    destruct (skip_whitespace r2) as [|c r3]; [discriminate|].
    destruct (c =? "}")%char; [inversion H; subst; exact Hacc'|].
    destruct (c =? ",")%char; [eauto | discriminate].
Qed.

Lemma loads_object_distinct (lim : limits) (s : string) (d : dict) :
  loads lim s = Ok (PDict d) -> distinct_keys d.
Proof.
  unfold loads.
  destruct (scan_once _ _ _ _) as [[[v rest]|y]|] eqn:E; try discriminate.
  destruct (skip_whitespace rest); [|discriminate].
  intros H. inversion H; subst.
  apply (proj1 (scan_distinct _ _)) in E. exact E.
Qed.

End json_facts.

(** ** [dict.update] merges pairs or raises *)

Lemma merge_from_seq2_step (d : dict) (item : pyval) (rest : list pyval) :
  merge_from_seq2 d (item :: rest) =
  match pair_of item with
  | Some (k, v) => merge_from_seq2 (dict_setitem d k v) rest
  | None =>
      (d, Some (match py_iter item with
                | Ok [_; _] | Raise _ => TypeError
                | Ok _ => ValueError
                end))
  end.
Proof.
  destruct item as [| b | z | f | s | l | m | t]; try reflexivity.
  - simpl. destruct (chars s) as [|a [|b [|c r]]]; reflexivity.
  - simpl. destruct l as [|k [|v [|w r]]]; try reflexivity.
    destruct (hashable k); reflexivity.
  - simpl. destruct m as [|[k1 v1] [|[k2 v2] [|[k3 v3] r]]]; try reflexivity.
    simpl. destruct (hashable k1); reflexivity.
Qed.

(** The loop stores every pair, or stops at the first element that is not
    one, with a [TypeError] or a [ValueError]. *)
Lemma merge_from_seq2_spec (items : list pyval) :
  forall d,
    match all_pairs items with
    | Some ps => merge_from_seq2 d items = (dict_merge d ps, None)
    | None =>
        exists d' x, merge_from_seq2 d items = (d', Some x) /\
                     (x = TypeError \/ x = ValueError)
    end.
Proof.
  induction items as [|item rest IH]; intros d.
  - reflexivity.
  - rewrite merge_from_seq2_step. cbn [all_pairs].
    destruct (pair_of item) as [[k v]|].
    + specialize (IH (dict_setitem d k v)).
      destruct (all_pairs rest) as [ps|]; exact IH.
    + eexists _, _. split; [reflexivity|].
      destruct (py_iter item) as [[|a [|b [|c r]]]|]; auto.
Qed.

Lemma dict_update_spec (d : dict) (v : pyval) :
  match overlay_items v with
  | Some items => dict_update d v = (dict_merge d items, None)
  | None =>
      exists d' x, dict_update d v = (d', Some x) /\
                   (x = TypeError \/ x = ValueError)
  end.
Proof.
  destruct v as [| b | z | f | s | l | m | t]; simpl;
    try (eexists _, _; split; [reflexivity | auto]).
  - apply merge_from_seq2_spec.
  - apply merge_from_seq2_spec.
  - reflexivity.
Qed.

(** ** The Action projection runs the three steps *)

(** The body runs Steps 1 and 2 and then, for a non-empty [extra_json],
    decodes it and updates the dictionary it has built. *)
Lemma body_steps12 (lim : json.limits)
    (self : StructuredDataActionValue.t) :
  body lim self [] =
  if truthy (extra_json self) then
    match json.loads lim (extra_json self) with
    | Ok arg => update arg (steps12 self)
    | Raise x => (steps12 self, Raise x)
    end
  else (steps12 self, Ok tt).
Proof.
  destruct self as [at_ tg q lang rt rn ej].
  unfold body, steps12, step1, entry_point, result_object, seq, when, eval.
  cbn [action_type target query language result_type result_name extra_json].
  generalize (json.loads lim ej). intros r.
  destruct (at_ =? "SearchAction") eqn:E;
    [apply String.eqb_eq in E; subst at_|];
    destruct (truthy rt); destruct (truthy ej); try reflexivity;
    destruct r; reflexivity.
Qed.

(** [struct_dict] returns Steps 1 and 2 with the whole overlay merged in,
    or raises. *)
Lemma struct_dict_overlay (lim : json.limits)
    (self : StructuredDataActionValue.t) :
  match overlay lim self with
  | Some items => struct_dict lim self = Ok (dict_merge (steps12 self) items)
  | None =>
      exists x, struct_dict lim self = Raise x /\
                (x = JSONDecodeError \/ x = RecursionError \/
                 x = ValueError \/ x = TypeError)
  end.
Proof.
  unfold struct_dict, return_sd_dict, overlay. rewrite body_steps12.
  destruct (truthy (extra_json self)); [|reflexivity].
  destruct (json.loads lim (extra_json self)) as [v|x] eqn:E.
  - unfold update. pose proof (dict_update_spec (steps12 self) v) as U.
    destruct (overlay_items v) as [items|].
    + rewrite U. reflexivity.
    + destruct U as (d' & x & -> & Hx). exists x. split; [reflexivity|tauto].
  - exists x. split; [reflexivity|].
    pose proof (json_facts.loads_raises _ _ _ E). tauto.
Qed.

Lemma dict_get_merge_absent (items : list (pyval * pyval)) (k : pyval) :
  forall d,
    Forall (fun kv => same_key (fst kv) k = false) items ->
    dict_get (dict_merge d items) k = dict_get d k.
Proof.
  unfold dict_merge.
  induction items as [|[k1 v1] items IH]; intros d HF; simpl.
  - reflexivity.
  - inversion HF as [|? ? H1 H2]; subst. simpl in H1.
    rewrite (IH _ H2), dict_get_setitem, H1. reflexivity.
Qed.

(** ** The Action projection: claims *)

(** C1: for an entry whose [action_type] is not "SearchAction", with a
    falsy [result_type] and an empty [extra_json], the projection is the
    dictionary whose "@type" is [action_type] and whose "target" is the
    EntryPoint object: "urlTemplate" the input [target], "inLanguage" the
    input [language], "actionPlatform" the three fixed platform URIs in
    their fixed order. *)
Theorem action_entry_point (lim : json.limits)
    (self : StructuredDataActionValue.t) :
  action_type self <> "SearchAction" ->
  truthy (result_type self) = false ->
  extra_json self = "" ->
  struct_dict lim self =
  Ok [ (PStr "@type", PStr (action_type self));
       (PStr "target",
        PDict [ (PStr "@type", PStr "EntryPoint");
                (PStr "urlTemplate", PStr (target self));
                (PStr "inLanguage", PStr (language self));
                (PStr "actionPlatform",
                 PList [ PStr "http://schema.org/DesktopWebPlatform";
                         PStr "http://schema.org/IOSPlatform";
                         PStr "http://schema.org/AndroidPlatform" ]) ]) ].
Proof.
  intros Hat Hrt Hej.
  pose proof (struct_dict_overlay lim self) as S.
  unfold overlay, steps12, step1 in S.
  apply String.eqb_neq in Hat. rewrite Hat, Hrt, Hej in S. exact S.
Qed.

Lemma action_entry_point_witness :
  struct_dict default_limits (mk "OrderAction" "https://ex.com/order" "" "en-US" "" "" "") =
  Ok [ (PStr "@type", PStr "OrderAction");
       (PStr "target",
        PDict [ (PStr "@type", PStr "EntryPoint");
                (PStr "urlTemplate", PStr "https://ex.com/order");
                (PStr "inLanguage", PStr "en-US");
                (PStr "actionPlatform",
                 PList [ PStr "http://schema.org/DesktopWebPlatform";
                         PStr "http://schema.org/IOSPlatform";
                         PStr "http://schema.org/AndroidPlatform" ]) ]) ].
Proof.
  apply (action_entry_point default_limits
           (mk "OrderAction" "https://ex.com/order" "" "en-US" "" "" "")).
  - simpl. discriminate.
  - reflexivity.
  - reflexivity.
Defined.

(** C4: for an entry whose [action_type] is "SearchAction", with a falsy
    [result_type] and an empty [extra_json], the projection is exactly
    "@type" "SearchAction", "target" the input [target] string itself and
    "query" the input [query], whatever it is, the empty string
    included. *)
Theorem search_action_shape (lim : json.limits)
    (self : StructuredDataActionValue.t) :
  action_type self = "SearchAction" ->
  truthy (result_type self) = false ->
  extra_json self = "" ->
  struct_dict lim self =
  Ok [ (PStr "@type", PStr "SearchAction");
       (PStr "target", PStr (target self));
       (PStr "query", PStr (query self)) ].
Proof.
  intros Hat Hrt Hej.
  pose proof (struct_dict_overlay lim self) as S.
  unfold overlay, steps12, step1 in S.
  rewrite Hat, Hrt, Hej in S. exact S.
Qed.

Lemma search_action_shape_witness :
  struct_dict default_limits
    (mk "SearchAction" "https://ex.com/search?q={query}" "" "en-US" "" "" "") =
  Ok [ (PStr "@type", PStr "SearchAction");
       (PStr "target", PStr "https://ex.com/search?q={query}");
       (PStr "query", PStr "") ].
Proof.
  apply (search_action_shape default_limits
           (mk "SearchAction" "https://ex.com/search?q={query}" "" "en-US"
               "" "" ""));
    reflexivity.
Defined.

(** C2: when a non-empty [extra_json] decodes to a JSON object, the
    projection is the dictionary of Steps 1 and 2 with the members of that
    object merged in last: every key of the object reads as the object has
    it, also "@type", "target" or "result", and every other key reads as
    Steps 1 and 2 left it. *)
Theorem extra_json_object_overlay (lim : json.limits)
    (self : StructuredDataActionValue.t) (members : dict) :
  truthy (extra_json self) = true ->
  json.loads lim (extra_json self) = Ok (PDict members) ->
  exists d,
    struct_dict lim self = Ok d /\
    d = dict_merge (steps12 self) members /\
    (forall k v, dict_get members k = Some v -> dict_get d k = Some v) /\
    (forall k, dict_get members k = None ->
               dict_get d k = dict_get (steps12 self) k).
Proof.
  intros Hej Hl.
  pose proof (struct_dict_overlay lim self) as S.
  unfold overlay in S. rewrite Hej, Hl in S. simpl in S.
  exists (dict_merge (steps12 self) members).
  assert (R : dict_merge [] members = members).
  { apply (dict_display_distinct members).
    exact (json_facts.loads_object_distinct _ _ _ Hl). }
  repeat split; auto.
  - intros k v Hk. rewrite dict_get_merge, R, Hk. reflexivity.
  - intros k Hk. rewrite dict_get_merge, R, Hk. reflexivity.
Qed.

Lemma extra_json_object_overlay_witness :
  exists d,
    struct_dict default_limits
      (mk "SearchAction" "https://ex.com/s" "required" "en-US" "" ""
          ("{" ++ quoted "query" ++ ": " ++ quoted "override" ++ "}")%string)
    = Ok d /\
    dict_get d (PStr "query") = Some (PStr "override") /\
    dict_get d (PStr "@type") = Some (PStr "SearchAction").
Proof.
  destruct (extra_json_object_overlay default_limits
              (mk "SearchAction" "https://ex.com/s" "required" "en-US" "" ""
                 ("{" ++ quoted "query" ++ ": " ++ quoted "override" ++ "}")
                 %string)
              [ (PStr "query", PStr "override") ])
    as (d & Hd & _ & Hin & Hout).
  - reflexivity.
  - vm_compute. reflexivity.
  - exists d. split; [exact Hd|]. split.
    + apply Hin. reflexivity.
    + rewrite Hout; reflexivity.
Defined.

(** C5: provided [extra_json] itself supplies no "result" key, the
    projection has a "result" key exactly when [result_type] is truthy;
    its value is then the object of "@type" [result_type] and "name"
    [result_name], whatever [result_name] is, and with a falsy
    [result_type] there is no "result" key, whatever [result_name] is. *)
Theorem result_key (lim : json.limits)
    (self : StructuredDataActionValue.t) (d : dict) :
  struct_dict lim self = Ok d ->
  (forall items,
      overlay lim self = Some items ->
      Forall (fun kv => same_key (fst kv) (PStr "result") = false) items) ->
  dict_get d (PStr "result") =
  if truthy (result_type self)
  then Some (PDict [ (PStr "@type", PStr (result_type self));
                     (PStr "name", PStr (result_name self)) ])
  else None.
Proof.
  intros Hd Hno.
  pose proof (struct_dict_overlay lim self) as S.
  destruct (overlay lim self) as [items|].
  - rewrite S in Hd. inversion Hd; subst d.
    rewrite dict_get_merge_absent by (apply Hno; reflexivity).
    unfold steps12, step1, result_object.
    destruct (truthy (result_type self));
      destruct (action_type self =? "SearchAction"); reflexivity.
  - destruct S as (x & S & _). rewrite S in Hd. discriminate.
Qed.

Lemma result_key_witness :
  dict_get
    [ (PStr "@type", PStr "SearchAction"); (PStr "target", PStr "t");
      (PStr "query", PStr "q");
      (PStr "result", PDict [ (PStr "@type", PStr "Reservation");
                              (PStr "name", PStr "") ]);
      (PStr "a", PInt 1) ]
    (PStr "result") =
  Some (PDict [ (PStr "@type", PStr "Reservation"); (PStr "name", PStr "") ]).
Proof.
  apply (result_key default_limits
           (mk "SearchAction" "t" "q" "en-US" "Reservation" ""
               ("[[" ++ quoted "a" ++ ", 1]]")%string)).
  - vm_compute. reflexivity.
  - intros items H. vm_compute in H. inversion H; subst.
    constructor; [reflexivity | constructor].
Defined.

(** The example scenario of the specification's section 8. *)
Example reserve_action_scenario :
  struct_dict default_limits
    (mk "ReserveAction" "https://ex.com/book" "" "en-US" "Reservation"
        "Book a table" "") =
  Ok [ (PStr "@type", PStr "ReserveAction");
       (PStr "target",
        PDict [ (PStr "@type", PStr "EntryPoint");
                (PStr "urlTemplate", PStr "https://ex.com/book");
                (PStr "inLanguage", PStr "en-US");
                (PStr "actionPlatform",
                 PList [ PStr "http://schema.org/DesktopWebPlatform";
                         PStr "http://schema.org/IOSPlatform";
                         PStr "http://schema.org/AndroidPlatform" ]) ]);
       (PStr "result",
        PDict [ (PStr "@type", PStr "Reservation");
                (PStr "name", PStr "Book a table") ]) ].
Proof. vm_compute. reflexivity. Qed.

(** C10: a non-empty [extra_json] that decodes to an array of two-item
    arrays, each a key and a value, is valid JSON and no object, and yet
    it raises nothing: the pairs are merged into the dictionary of Steps 1
    and 2 as top-level keys, a later pair overwriting an earlier one and
    any key of Steps 1 and 2.  A key is any JSON string, number, boolean
    or null (see [hashable_scalar]). *)
Theorem extra_json_pairs_overlay (lim : json.limits)
    (self : StructuredDataActionValue.t) (pairs : list (pyval * pyval)) :
  truthy (extra_json self) = true ->
  json.loads lim (extra_json self) =
    Ok (PList (map (fun kv => PList [fst kv; snd kv]) pairs)) ->
  Forall (fun kv => hashable (fst kv) = true) pairs ->
  struct_dict lim self = Ok (dict_merge (steps12 self) pairs) /\
  (forall k, dict_get (dict_merge (steps12 self) pairs) k =
             match dict_get (dict_display pairs) k with
             | Some v => Some v
             | None => dict_get (steps12 self) k
             end).
Proof.
  intros Hej Hl Hh.
  pose proof (struct_dict_overlay lim self) as S.
  unfold overlay in S. rewrite Hej, Hl in S. cbn [overlay_items] in S.
  assert (A : all_pairs (map (fun kv => PList [fst kv; snd kv]) pairs)
              = Some pairs).
  { clear - Hh. induction Hh as [|[k v] ps Hk _ IH]; [reflexivity|].
    simpl in *. rewrite Hk, IH. reflexivity. }
  rewrite A in S. split; [exact S|].
  intros k. apply dict_get_merge.
Qed.

Lemma extra_json_pairs_overlay_witness :
  struct_dict default_limits
    (mk "SearchAction" "t" "q" "en-US" "" ""
        ("[[" ++ quoted "a" ++ ", 1]]")%string) =
  Ok [ (PStr "@type", PStr "SearchAction"); (PStr "target", PStr "t");
       (PStr "query", PStr "q"); (PStr "a", PInt 1) ].
Proof.
  apply (extra_json_pairs_overlay default_limits
           (mk "SearchAction" "t" "q" "en-US" "" ""
               ("[[" ++ quoted "a" ++ ", 1]]")%string)
           [ (PStr "a", PInt 1) ]).
  - reflexivity.
  - vm_compute. reflexivity.
  - constructor; [reflexivity | constructor].
Defined.




(** C7: the projection returns the complete dictionary, Steps 1 and 2
    with every item of the overlay merged in, or it raises; when the
    overlay fails the caller gets the exception and no dictionary,
    whatever the body had stored in its local dictionary by then.  The
    OpeningHours projection cannot fail at all: it always returns its
    complete dictionary, the four keys with the values of the entry. *)
Theorem no_partial_result (lim : json.limits)
    (self : StructuredDataActionValue.t) :
  ((exists items,
      overlay lim self = Some items /\
      struct_dict lim self = Ok (dict_merge (steps12 self) items)) \/
   (overlay lim self = None /\ exists x, struct_dict lim self = Raise x)) /\
  (forall d x,
      body lim self [] = (d, Raise x) -> struct_dict lim self = Raise x) /\
  (forall d, struct_dict lim self = Ok d -> body lim self [] = (d, Ok tt)) /\
  (forall hours : OpenHoursValue.t,
      OpenHoursValue.struct_dict hours =
      [ (PStr "@type", PStr "OpeningHoursSpecification");
        (PStr "dayOfWeek", PList (map PStr (OpenHoursValue.days hours)));
        (PStr "opens", PTime (OpenHoursValue.start_time hours));
        (PStr "closes", PTime (OpenHoursValue.end_time hours)) ]).
Proof.
  pose proof (struct_dict_overlay lim self) as S.
  split; [|split; [|split]].
  - destruct (overlay lim self) as [items|].
    + left. exists items. auto.
    + right. destruct S as (x & S & _). eauto.
  - intros d x H. unfold struct_dict, return_sd_dict. rewrite H. reflexivity.
  - unfold struct_dict, return_sd_dict.
    intros d H. destruct (body lim self []) as [d' [[]|x]]; [|discriminate].
    inversion H; subst. reflexivity.
  - intros hours. reflexivity.
Qed.

(** The local dictionary of a failing run: the pair before the bad
    element has been stored in it, and the caller does not see it. *)
Example failing_overlay_is_discarded :
  let self := mk "SearchAction" "t" "q" "en-US" "" ""
                 ("[[" ++ quoted "a" ++ ", 1], 5]")%string in
  body default_limits self [] =
    ([ (PStr "@type", PStr "SearchAction"); (PStr "target", PStr "t");
       (PStr "query", PStr "q"); (PStr "a", PInt 1) ], Raise TypeError) /\
  struct_dict default_limits self = Raise TypeError.
Proof. vm_compute. split; reflexivity. Qed.

(** C9, as stated, fails in its parenthesis: for a "SearchAction" entry
    whose [extra_json] is the object of "inLanguage" "fr", the projection
    has an "inLanguage" key. *)
Lemma search_action_inLanguage_from_extra_json :
  let self := mk "SearchAction" "t" "q" "en-US" "" ""
                 ("{" ++ quoted "inLanguage" ++ ": " ++ quoted "fr" ++ "}")
                 %string in
  action_type self = "SearchAction" /\
  struct_dict default_limits self =
    Ok [ (PStr "@type", PStr "SearchAction"); (PStr "target", PStr "t");
         (PStr "query", PStr "q"); (PStr "inLanguage", PStr "fr") ] /\
  dict_get [ (PStr "@type", PStr "SearchAction"); (PStr "target", PStr "t");
             (PStr "query", PStr "q"); (PStr "inLanguage", PStr "fr") ]
           (PStr "inLanguage") = Some (PStr "fr").
Proof. vm_compute. repeat split. Qed.

(** C9, amended: two entries that differ only in a field the taken
    branch does not read have the same projection, [extra_json] held
    fixed: [query] when [action_type] is not "SearchAction", [language]
    when it is; and a "SearchAction" projection has no "inLanguage" key
    unless [extra_json] itself supplies one. *)
Theorem unread_field_independence (lim : json.limits)
    (self : StructuredDataActionValue.t) :
  (action_type self <> "SearchAction" ->
   forall q, struct_dict lim (with_query self q) = struct_dict lim self) /\
  (action_type self = "SearchAction" ->
   (forall l, struct_dict lim (with_language self l) = struct_dict lim self) /\
   (forall d,
       struct_dict lim self = Ok d ->
       (forall items,
           overlay lim self = Some items ->
           Forall (fun kv => same_key (fst kv) (PStr "inLanguage") = false)
                  items) ->
       dict_get d (PStr "inLanguage") = None)).
Proof.
  split.
  - intros Hat q. apply String.eqb_neq in Hat.
    unfold struct_dict. f_equal.
    unfold body, with_query.
    cbn [action_type target query language result_type result_name
         extra_json].
    rewrite Hat. reflexivity.
  - intros Hat. split.
    + intros l. unfold struct_dict. f_equal.
      unfold body, with_language.
      cbn [action_type target query language result_type result_name
           extra_json].
      rewrite Hat. reflexivity.
    + intros d Hd Hno.
      pose proof (struct_dict_overlay lim self) as S.
      destruct (overlay lim self) as [items|].
      * rewrite S in Hd. inversion Hd; subst d.
        rewrite dict_get_merge_absent by (apply Hno; reflexivity).
        unfold steps12, step1. rewrite Hat.
        destruct (truthy (result_type self)); reflexivity.
      * destruct S as (x & S & _). rewrite S in Hd. discriminate.
Qed.

Lemma unread_field_independence_witness :
  struct_dict default_limits (mk "SearchAction" "t" "q" "fr-FR" "" "" "") =
  struct_dict default_limits (mk "SearchAction" "t" "q" "en-US" "" "" "").
Proof.
  apply (unread_field_independence default_limits
           (mk "SearchAction" "t" "q" "en-US" "" "" "")).
  reflexivity.
Defined.

(** ** The OpeningHours projection *)

(** C6, as stated, fails: for Monday from 09:00 to 17:30, a selection the
    [days] field accepts, "opens" and "closes" are the two time values
    themselves and not the strings "09:00" and "17:30". *)
Lemma opens_is_not_a_string :
  let self := OpenHoursValue.mk ["Monday"] (mk_time 9 0 0 0)
                                (mk_time 17 30 0 0) in
  MultiSelectBlock.validate OpenHoursBlock.days (OpenHoursValue.days self)
    = Ok tt /\
  dict_get (OpeningHours_spec self) (PStr "opens") = Some (PStr "09:00") /\
  dict_get (OpenHoursValue.struct_dict self) (PStr "opens")
    = Some (PTime (mk_time 9 0 0 0)) /\
  dict_get (OpenHoursValue.struct_dict self) (PStr "closes")
    = Some (PTime (mk_time 17 30 0 0)) /\
  OpenHoursValue.struct_dict self <> OpeningHours_spec self.
Proof.
  vm_compute. repeat split. intros H. discriminate H.
Qed.

(** C6, amended: the projection is the dictionary of "@type"
    "OpeningHoursSpecification", "dayOfWeek" the input [days] in their
    order and with their repetitions, and "opens" and "closes" the
    [start_time] and [end_time] values as they are, not serialized. *)
Theorem opening_hours_shape (self : OpenHoursValue.t) :
  OpenHoursValue.struct_dict self =
  [ (PStr "@type", PStr "OpeningHoursSpecification");
    (PStr "dayOfWeek", PList (map PStr (OpenHoursValue.days self)));
    (PStr "opens", PTime (OpenHoursValue.start_time self));
    (PStr "closes", PTime (OpenHoursValue.end_time self)) ].
Proof. reflexivity. Qed.

(** ** The multi-choice field *)

Lemma valid_value_In (f : MultiSelectBlock.MultipleChoiceField)
    (tok : string) :
  MultiSelectBlock.valid_value f tok = true <->
  In tok (map fst (MultiSelectBlock.choices f)).
Proof.
  unfold MultiSelectBlock.valid_value. rewrite existsb_exists. split.
  - intros ([k l] & Hin & Heq). apply String.eqb_eq in Heq. simpl in Heq.
    subst. apply (in_map fst) in Hin. exact Hin.
  - intros Hin. apply in_map_iff in Hin as ([k l] & Heq & Hin).
    simpl in Heq. subst. exists (tok, l). split; [exact Hin|].
    apply String.eqb_refl.
Qed.

Lemma validate_tokens_raises (f : MultiSelectBlock.MultipleChoiceField)
    (selection : list string) :
  (MultiSelectBlock.validate_tokens f selection = Raise ValidationError <->
   exists tok, In tok selection /\
               ~ In tok (map fst (MultiSelectBlock.choices f))) /\
  (MultiSelectBlock.validate_tokens f selection = Ok tt \/
   MultiSelectBlock.validate_tokens f selection = Raise ValidationError).
Proof.
  induction selection as [|tok rest [IH1 IH2]]; simpl.
  - split; [|auto]. split; [discriminate | intros (tok & [] & _)].
  - destruct (MultiSelectBlock.valid_value f tok) eqn:E.
    + split; [|exact IH2]. rewrite IH1. split.
      * intros (t & Hin & Hn). exists t. auto.
      * intros (t & [Heq | Hin] & Hn); [|eauto].
        subst t. apply valid_value_In in E. contradiction.
    + split; [|auto]. split; [|reflexivity].
      intros _. exists tok. split; [auto|].
      intros Hin. apply valid_value_In in Hin. congruence.
Qed.

(** C8: [validate] fails with [ValidationError] exactly when the field is
    required and the selection is empty, or some selected token is not
    one of the configured choices, the seven weekday names for the [days]
    field; otherwise it succeeds, and being a function of its arguments
    it has no effect. *)
Theorem validate_fails_iff (b : MultiSelectBlock.t)
    (selection : list string) :
  (MultiSelectBlock.validate b selection = Raise ValidationError <->
   (MultiSelectBlock.required (MultiSelectBlock.field b) = true /\
    selection = []) \/
   exists tok,
     In tok selection /\
     ~ In tok (map fst (MultiSelectBlock.choices (MultiSelectBlock.field b))))
  /\
  (MultiSelectBlock.validate b selection = Ok tt \/
   MultiSelectBlock.validate b selection = Raise ValidationError) /\
  MultiSelectBlock.required (MultiSelectBlock.field OpenHoursBlock.days)
    = true /\
  map fst (MultiSelectBlock.choices (MultiSelectBlock.field OpenHoursBlock.days))
    = [ "Monday"; "Tuesday"; "Wednesday"; "Thursday"; "Friday"; "Saturday";
        "Sunday" ].
Proof.
  split; [|split; [|split; reflexivity]].
  - unfold MultiSelectBlock.validate.
    destruct (validate_tokens_raises (MultiSelectBlock.field b) selection)
      as [T _].
    destruct (MultiSelectBlock.required (MultiSelectBlock.field b));
      destruct selection as [|tok rest].
    + split; [auto | reflexivity].
    + rewrite T. split; [auto|].
      intros [[_ H] | H]; [discriminate | exact H].
    + rewrite T. split; [auto|].
      intros [[H _] | H]; [discriminate | exact H].
    + rewrite T. split; [auto|].
      intros [[H _] | H]; [discriminate | exact H].
  - unfold MultiSelectBlock.validate.
    destruct (validate_tokens_raises (MultiSelectBlock.field b) selection)
      as [_ T].
    destruct (MultiSelectBlock.required (MultiSelectBlock.field b));
      destruct selection; auto.
Qed.

(** * Further properties of the projections *)

(** ** Edge values of [extra_json] *)

Lemma skip_whitespace_all (s : string) :
  all_whitespace s = true -> json.skip_whitespace s = "".
Proof.
  induction s as [|c s IH]; simpl; [reflexivity|].
  destruct (json.is_whitespace c); [exact IH | discriminate].
Qed.

Lemma loads_whitespace (lim : json.limits)
    (s : string) :
  all_whitespace s = true -> json.loads lim s = Raise JSONDecodeError.
Proof.
  intros H. unfold json.loads. rewrite (skip_whitespace_all _ H).
  rewrite Nat.add_1_r. reflexivity.
Qed.

Lemma struct_dict_unfold (lim : json.limits)
    (self : StructuredDataActionValue.t) :
  struct_dict lim self =
  if truthy (extra_json self) then
    match json.loads lim (extra_json self) with
    | Ok arg =>
        match dict_update (steps12 self) arg with
        | (d, None) => Ok d
        | (_, Some x) => Raise x
        end
    | Raise x => Raise x
    end
  else Ok (steps12 self).
Proof.
  unfold struct_dict, return_sd_dict. rewrite body_steps12.
  destruct (truthy (extra_json self)); [|reflexivity].
  destruct (json.loads lim (extra_json self)) as [arg|x]; [|reflexivity].
  unfold update. destruct (dict_update (steps12 self) arg) as [d [x|]];
    reflexivity.
Qed.

(** X1: an [extra_json] that is not empty but holds white space only is
    truthy, so it is decoded, and decoding it raises [JSONDecodeError]:
    a blank-looking field is no empty field. *)
Theorem blank_extra_json_raises (lim : json.limits)
    (self : StructuredDataActionValue.t) :
  extra_json self <> "" ->
  all_whitespace (extra_json self) = true ->
  struct_dict lim self = Raise JSONDecodeError.
Proof.
  intros Hne Hws. rewrite struct_dict_unfold.
  assert (T : truthy (extra_json self) = true).
  { unfold truthy. apply String.eqb_neq in Hne. rewrite Hne. reflexivity. }
  rewrite T, (loads_whitespace lim _ Hws). reflexivity.
Qed.

Lemma blank_extra_json_raises_witness :
  struct_dict default_limits (mk "SearchAction" "t" "q" "en-US" "" "" " ") =
  Raise JSONDecodeError.
Proof.
  apply (blank_extra_json_raises default_limits (mk "SearchAction" "t" "q" "en-US" "" "" " ")).
  - simpl. discriminate.
  - reflexivity.
Defined.

(** X2: the exceptions of the decoder pass through unchanged and
    [dict.update] adds none of theirs: the projection raises
    [JSONDecodeError], or [RecursionError], exactly when [extra_json] is
    not empty and [json.loads] raises it; a text that decodes never
    makes the projection raise either class, whatever [dict.update]
    makes of the value. *)
Theorem JSONDecodeError_iff_invalid (lim : json.limits)
    (self : StructuredDataActionValue.t) (x : exn) :
  x = JSONDecodeError \/ x = RecursionError ->
  (struct_dict lim self = Raise x <->
   truthy (extra_json self) = true /\
   json.loads lim (extra_json self) = Raise x).
Proof.
  intros Hx. rewrite struct_dict_unfold. split.
  - destruct (truthy (extra_json self)); [|discriminate].
    destruct (json.loads lim (extra_json self)) as [v|y] eqn:E.
    + pose proof (dict_update_spec (steps12 self) v) as U.
      destruct (overlay_items v).
      * rewrite U. discriminate.
      * destruct U as (d' & x' & -> & Hx'). intros H. inversion H; subst.
        destruct Hx as [-> | ->], Hx' as [Hx' | Hx']; discriminate Hx'.
    + intros H. inversion H; subst. auto.
  - intros (-> & E). rewrite E. reflexivity.
Qed.

Lemma JSONDecodeError_iff_invalid_witness :
  struct_dict default_limits
    (mk "SearchAction" "t" "q" "en-US" "" "" "{") = Raise JSONDecodeError <->
  truthy (extra_json (mk "SearchAction" "t" "q" "en-US" "" "" "{")) = true /\
  json.loads default_limits
    (extra_json (mk "SearchAction" "t" "q" "en-US" "" "" "{"))
  = Raise JSONDecodeError.
Proof.
  apply (JSONDecodeError_iff_invalid default_limits
           (mk "SearchAction" "t" "q" "en-US" "" "" "{") JSONDecodeError).
  left. reflexivity.
Defined.

(** X3: an [extra_json] that decodes to [null], a boolean or a number
    raises [TypeError]: the value is not iterable. *)
Theorem scalar_extra_json_raises (lim : json.limits)
    (self : StructuredDataActionValue.t) (v : pyval) :
  truthy (extra_json self) = true ->
  json.loads lim (extra_json self) = Ok v ->
  json_scalar v = true ->
  struct_dict lim self = Raise TypeError.
Proof.
  intros T E S. rewrite struct_dict_unfold, T, E.
  destruct v; try discriminate; reflexivity.
Qed.

Lemma scalar_extra_json_raises_witness :
  struct_dict default_limits (mk "OrderAction" "t" "" "en-US" "" "" "null") =
  Raise TypeError.
Proof.
  apply (scalar_extra_json_raises default_limits
           (mk "OrderAction" "t" "" "en-US" "" "" "null") PNone);
    reflexivity.
Defined.

(** The code points of one code point: itself. *)
Lemma chars_head (s : string) :
  match chars s with
  | h :: _ => chars h = [h]
  | [] => s = ""
  end.
Proof.
  induction s as [|c s IH]; simpl; [reflexivity|].
  destruct (chars s) as [|h t] eqn:E.
  - reflexivity.
  - destruct (starts_with_continuation h) eqn:C; [|reflexivity].
    simpl. rewrite IH, C. reflexivity.
Qed.

(** X4: an [extra_json] that decodes to a JSON string that is not empty
    raises [ValueError]: the string is read as a sequence of pairs and its
    first code point is a sequence of length one. *)
Theorem string_extra_json_raises (lim : json.limits)
    (self : StructuredDataActionValue.t) (s : string) :
  truthy (extra_json self) = true ->
  json.loads lim (extra_json self) = Ok (PStr s) ->
  s <> "" ->
  struct_dict lim self = Raise ValueError.
Proof.
  intros T E Hs. rewrite struct_dict_unfold, T, E.
  unfold dict_update, py_iter.
  pose proof (chars_head s) as H.
  destruct (chars s) as [|h t]; [contradiction|].
  cbn [map merge_from_seq2 py_iter]. rewrite H. reflexivity.
Qed.

Lemma string_extra_json_raises_witness :
  struct_dict default_limits (mk "OrderAction" "t" "" "en-US" "" "" (quoted "name")) =
  Raise ValueError.
Proof.
  apply (string_extra_json_raises default_limits
           (mk "OrderAction" "t" "" "en-US" "" "" (quoted "name")) "name").
  - reflexivity.
  - vm_compute. reflexivity.
  - discriminate.
Defined.

(** X5: an [extra_json] that decodes to an empty object, an empty array or
    an empty string changes nothing: the projection is the dictionary of
    Steps 1 and 2, as for an empty [extra_json]. *)
Theorem empty_overlay_changes_nothing (lim : json.limits)
    (self : StructuredDataActionValue.t) (v : pyval) :
  truthy (extra_json self) = true ->
  json.loads lim (extra_json self) = Ok v ->
  v = PDict [] \/ v = PList [] \/ v = PStr "" ->
  struct_dict lim self = Ok (steps12 self) /\
  struct_dict lim self = struct_dict lim (with_extra_json self "").
Proof.
  intros T E Hv.
  assert (S : struct_dict lim self = Ok (steps12 self)).
  { rewrite struct_dict_unfold, T, E.
    destruct Hv as [-> | [-> | ->]]; reflexivity. }
  split; [exact S|]. rewrite S.
  rewrite (struct_dict_unfold lim (with_extra_json self "")). reflexivity.
Qed.

Lemma empty_overlay_changes_nothing_witness :
  struct_dict default_limits (mk "SearchAction" "t" "q" "en-US" "" "" "{ }") =
  struct_dict default_limits
    (with_extra_json (mk "SearchAction" "t" "q" "en-US" "" "" "{ }") "").
Proof.
  apply (empty_overlay_changes_nothing default_limits
           (mk "SearchAction" "t" "q" "en-US" "" "" "{ }") (PDict [])).
  - reflexivity.
  - vm_compute. reflexivity.
  - left. reflexivity.
Defined.

(** ** What the overlay can and cannot do *)

Lemma dict_setitem_keys (d : dict) (k v : pyval) :
  exists tail, map fst (dict_setitem d k v) = map fst d ++ tail.
Proof.
  induction d as [|[k0 v0] d (tail & IH)]; simpl.
  - exists [k]. reflexivity.
  - destruct (same_key k0 k); simpl.
    + exists []. now rewrite app_nil_r.
    + exists tail. rewrite IH. reflexivity.
Qed.

Lemma dict_merge_keys (items : list (pyval * pyval)) :
  forall d, exists tail, map fst (dict_merge d items) = map fst d ++ tail.
Proof.
  unfold dict_merge.
  induction items as [|[k v] items IH]; intros d; simpl.
  - exists []. now rewrite app_nil_r.
  - destruct (IH (dict_setitem d k v)) as (t2 & H2).
    destruct (dict_setitem_keys d k v) as (t1 & H1).
    exists (t1 ++ t2). rewrite H2, H1, app_assoc. reflexivity.
Qed.

Lemma struct_dict_Ok (lim : json.limits)
    (self : StructuredDataActionValue.t) (d : dict) :
  struct_dict lim self = Ok d ->
  exists items,
    overlay lim self = Some items /\ d = dict_merge (steps12 self) items.
Proof.
  intros H. pose proof (struct_dict_overlay lim self) as S.
  destruct (overlay lim self) as [items|].
  - exists items. split; [reflexivity | congruence].
  - destruct S as (x & S & _). congruence.
Qed.

(** X6: the overlay adds keys and replaces values, and never removes or
    moves a key: in every dictionary the projection returns, the keys of
    Steps 1 and 2 come first and in their order, so "@type" is the first
    key and "target" the second, whatever [extra_json] holds. *)
Theorem generated_keys_stay_first (lim : json.limits)
    (self : StructuredDataActionValue.t) (d : dict) :
  struct_dict lim self = Ok d ->
  (exists added, map fst d = map fst (steps12 self) ++ added) /\
  (exists rest, map fst d = PStr "@type" :: PStr "target" :: rest) /\
  (exists v, dict_get d (PStr "@type") = Some v) /\
  (exists v, dict_get d (PStr "target") = Some v).
Proof.
  intros H. destruct (struct_dict_Ok _ _ _ H) as (items & _ & ->).
  destruct (dict_merge_keys items (steps12 self)) as (added & K).
  split; [eauto|]. split.
  - rewrite K. unfold steps12, step1.
    destruct (truthy (result_type self));
      destruct (action_type self =? "SearchAction"); simpl; eauto.
  - split; rewrite dict_get_merge;
      (destruct (dict_get (dict_merge [] items) _); [eauto|]);
      unfold steps12, step1;
      destruct (truthy (result_type self));
      destruct (action_type self =? "SearchAction"); simpl; eauto.
Qed.

Lemma generated_keys_stay_first_witness :
  (exists added,
      map fst [ (PStr "@type", PStr "X"); (PStr "target", PStr "t");
                (PStr "query", PStr "q"); (PStr "a", PInt 1) ]
      = map fst (steps12
                   (mk "SearchAction" "t" "q" "en-US" "" ""
                      ("[[" ++ quoted "a" ++ ", 1], [" ++ quoted "@type"
                       ++ ", " ++ quoted "X" ++ "]]")%string))
        ++ added) /\
  (exists rest,
      map fst [ (PStr "@type", PStr "X"); (PStr "target", PStr "t");
                (PStr "query", PStr "q"); (PStr "a", PInt 1) ]
      = PStr "@type" :: PStr "target" :: rest) /\
  (exists v,
      dict_get [ (PStr "@type", PStr "X"); (PStr "target", PStr "t");
                 (PStr "query", PStr "q"); (PStr "a", PInt 1) ]
               (PStr "@type") = Some v) /\
  (exists v,
      dict_get [ (PStr "@type", PStr "X"); (PStr "target", PStr "t");
                 (PStr "query", PStr "q"); (PStr "a", PInt 1) ]
               (PStr "target") = Some v).
Proof.
  apply (generated_keys_stay_first default_limits
           (mk "SearchAction" "t" "q" "en-US" "" ""
              ("[[" ++ quoted "a" ++ ", 1], [" ++ quoted "@type"
               ++ ", " ++ quoted "X" ++ "]]")%string)).
  vm_compute. reflexivity.
Defined.

Lemma distinct_keys_hashable (d : dict) :
  distinct_keys d -> Forall (fun kv => hashable (fst kv) = true) d.
Proof.
  induction d as [|[k v] d IH]; simpl; [constructor|].
  intros (H & _ & Hd). constructor; auto.
Qed.

Lemma all_pairs_hashable (l : list pyval) :
  forall items,
    all_pairs l = Some items ->
    Forall (fun kv => hashable (fst kv) = true) items.
Proof.
  induction l as [|item l IH]; simpl; intros items H.
  - inversion H; subst. constructor.
  - destruct (pair_of item) as [[k v]|] eqn:P; [|discriminate].
    destruct (all_pairs l) as [ps|]; [|discriminate].
    inversion H; subst. constructor; [|auto]. simpl.
    destruct item as [| b | z | f | s | l0 | m | t]; try discriminate.
    + simpl in P. destruct (chars s) as [|a [|b [|c r]]]; try discriminate.
      inversion P; subst. reflexivity.
    + simpl in P. destruct l0 as [|k0 [|v0 [|w r]]]; try discriminate.
      destruct (hashable k0) eqn:Hk; [|discriminate].
      inversion P; subst. exact Hk.
    + simpl in P.
      destruct m as [|[k1 v1] [|[k2 v2] [|[k3 v3] r]]]; try discriminate.
      destruct (hashable k1) eqn:Hk; [|discriminate].
      inversion P; subst. exact Hk.
Qed.

Lemma overlay_hashable (lim : json.limits)
    (self : StructuredDataActionValue.t)
    (items : list (pyval * pyval)) :
  overlay lim self = Some items ->
  Forall (fun kv => hashable (fst kv) = true) items.
Proof.
  unfold overlay. destruct (truthy (extra_json self)).
  - destruct (json.loads lim (extra_json self)) as [v|x] eqn:E; [|discriminate].
    destruct v as [| b | z | f | s | l | m | t]; simpl; try discriminate.
    + apply all_pairs_hashable.
    + apply all_pairs_hashable.
    + intros H. inversion H; subst. apply distinct_keys_hashable.
      exact (json_facts.loads_object_distinct _ _ _ E).
  - intros H. inversion H; subst. constructor.
Qed.

Lemma steps12_distinct (self : StructuredDataActionValue.t) :
  distinct_keys (steps12 self).
Proof.
  unfold steps12, step1.
  destruct (truthy (result_type self));
    destruct (action_type self =? "SearchAction"); simpl; auto 10.
Qed.

(** X7: every dictionary the projection returns is a well-formed
    dictionary: its keys are hashable and no two of them are the same
    key, whatever pairs or members [extra_json] supplies and however
    often it repeats one. *)
Theorem output_keys_distinct (lim : json.limits)
    (self : StructuredDataActionValue.t) (d : dict) :
  struct_dict lim self = Ok d -> distinct_keys d.
Proof.
  intros H. destruct (struct_dict_Ok _ _ _ H) as (items & O & ->).
  apply distinct_keys_merge.
  - exact (overlay_hashable _ _ _ O).
  - apply steps12_distinct.
Qed.

Lemma output_keys_distinct_witness :
  distinct_keys
    [ (PStr "@type", PStr "SearchAction"); (PStr "target", PStr "t");
      (PStr "query", PStr "q"); (PInt 1, PStr "c") ].
Proof.
  apply (output_keys_distinct default_limits
           (mk "SearchAction" "t" "q" "en-US" "" ""
              ("[[1, " ++ quoted "a" ++ "], [true, " ++ quoted "b"
               ++ "], [1.0, " ++ quoted "c" ++ "]]")%string)).
  vm_compute. reflexivity.
Defined.

(** The same key reads the same entry. *)
Lemma dict_get_same (d : dict) (a b : pyval) :
  same_key a b = true -> dict_get d a = dict_get d b.
Proof.
  intros H. induction d as [|[k0 v0] d IH]; simpl; [reflexivity|].
  rewrite (same_key_sym k0 a), (same_key_sym k0 b).
  rewrite <- (same_key_trans _ _ k0 H), IH. reflexivity.
Qed.

Lemma dict_merge_app (d : dict) (l1 l2 : list (pyval * pyval)) :
  dict_merge d (l1 ++ l2) = dict_merge (dict_merge d l1) l2.
Proof. unfold dict_merge. apply fold_left_app. Qed.

(** X8: last write wins inside the overlay too: when [extra_json]
    supplies a key more than once, the projection reads the value of its
    last occurrence. *)
Theorem last_pair_wins (lim : json.limits)
    (self : StructuredDataActionValue.t) (d : dict)
    (before after : list (pyval * pyval)) (k v : pyval) :
  struct_dict lim self = Ok d ->
  overlay lim self = Some (before ++ (k, v) :: after) ->
  Forall (fun kv => same_key (fst kv) k = false) after ->
  dict_get d k = Some v.
Proof.
  intros H O A. destruct (struct_dict_Ok _ _ _ H) as (items & O' & ->).
  rewrite O in O'. inversion O'; subst items.
  pose proof (overlay_hashable _ _ _ O) as Hh.
  apply Forall_app in Hh as [_ Hh]. inversion Hh as [|? ? Hk _]; subst.
  simpl in Hk. rewrite dict_merge_app.
  change (dict_merge (dict_merge (steps12 self) before) ((k, v) :: after))
    with (dict_merge (dict_setitem (dict_merge (steps12 self) before) k v)
            after).
  rewrite dict_get_merge_absent by exact A.
  rewrite dict_get_setitem, (same_key_refl _ Hk). reflexivity.
Qed.

Lemma last_pair_wins_witness :
  dict_get
    [ (PStr "@type", PStr "SearchAction"); (PStr "target", PStr "t");
      (PStr "query", PStr "q"); (PStr "a", PInt 2) ]
    (PStr "a") = Some (PInt 2).
Proof.
  apply (last_pair_wins default_limits
           (mk "SearchAction" "t" "q" "en-US" "" ""
              ("[[" ++ quoted "a" ++ ", 1], [" ++ quoted "a" ++ ", 2]]")
              %string)
           [ (PStr "@type", PStr "SearchAction"); (PStr "target", PStr "t");
             (PStr "query", PStr "q"); (PStr "a", PInt 2) ]
           [ (PStr "a", PInt 1) ] [] (PStr "a") (PInt 2)).
  - vm_compute. reflexivity.
  - vm_compute. reflexivity.
  - constructor.
Defined.

(** X9: an [extra_json] that supplies a "result" key hides the entry's
    own: the projection then reads the same at every key whatever
    [result_type] and [result_name] are. *)
Theorem supplied_result_hides_result_fields (lim : json.limits)
    (self : StructuredDataActionValue.t) (d : dict)
    (items : list (pyval * pyval)) (v : pyval) (rt rn : string) :
  struct_dict lim self = Ok d ->
  overlay lim self = Some items ->
  dict_get (dict_display items) (PStr "result") = Some v ->
  exists d',
    struct_dict lim (with_result self rt rn) = Ok d' /\
    dict_get d' (PStr "result") = Some v /\
    forall k, dict_get d' k = dict_get d k.
Proof.
  intros H O R. destruct (struct_dict_Ok _ _ _ H) as (items' & O' & ->).
  rewrite O in O'. inversion O'; subst items'.
  pose proof (struct_dict_overlay lim (with_result self rt rn)) as S.
  assert (O2 : overlay lim (with_result self rt rn) = overlay lim self).
  { unfold overlay, with_result. cbn [extra_json]. reflexivity. }
  rewrite O2, O in S.
  exists (dict_merge (steps12 (with_result self rt rn)) items).
  split; [exact S|]. split.
  - rewrite dict_get_merge. unfold dict_display in R. rewrite R. reflexivity.
  - intros k.
    rewrite (dict_get_merge (steps12 (with_result self rt rn))).
    rewrite (dict_get_merge (steps12 self)).
    unfold dict_display in R.
    destruct (dict_get (dict_merge [] items) k) as [w|] eqn:G; [reflexivity|].
    assert (Hk : same_key (PStr "result") k = false).
    { destruct (same_key (PStr "result") k) eqn:Sk; [|reflexivity].
      rewrite <- (dict_get_same _ _ _ Sk), R in G. discriminate. }
    unfold steps12, with_result, step1.
    cbn [action_type target query language result_type result_name
         extra_json].
    assert (L : forall base x,
      dict_get (base ++ [(PStr "result", x)]) k = dict_get base k).
    { intros base x. induction base as [|[k0 v0] base IH]; simpl.
      - rewrite Hk. reflexivity.
      - rewrite IH. reflexivity. }
    destruct (truthy rt), (truthy (result_type self)); rewrite ?L;
      reflexivity.
Qed.

Lemma supplied_result_hides_result_fields_witness :
  exists d',
    struct_dict default_limits
      (with_result
         (mk "OrderAction" "t" "" "en-US" "" ""
            ("{" ++ quoted "result" ++ ": null}")%string)
         "Reservation" "Book a table") = Ok d' /\
    dict_get d' (PStr "result") = Some PNone /\
    forall k,
      dict_get d' k =
      dict_get
        [ (PStr "@type", PStr "OrderAction");
          (PStr "target",
           entry_point (mk "OrderAction" "t" "" "en-US" "" "" ""));
          (PStr "result", PNone) ] k.
Proof.
  apply (supplied_result_hides_result_fields default_limits
           (mk "OrderAction" "t" "" "en-US" "" ""
              ("{" ++ quoted "result" ++ ": null}")%string)
           [ (PStr "@type", PStr "OrderAction");
             (PStr "target",
              entry_point (mk "OrderAction" "t" "" "en-US" "" "" ""));
             (PStr "result", PNone) ]
           [ (PStr "result", PNone) ] PNone "Reservation" "Book a table").
  - vm_compute. reflexivity.
  - vm_compute. reflexivity.
  - reflexivity.
Defined.

(** ** The OpeningHours projection loses nothing *)

Lemma map_PStr_injective (l1 l2 : list string) :
  map PStr l1 = map PStr l2 -> l1 = l2.
Proof.
  revert l2. induction l1 as [|a l1 IH]; intros [|b l2] H;
    try discriminate; [reflexivity|].
  simpl in H. inversion H; subst. f_equal. auto.
Qed.

(** X10: the OpeningHours projection is one-to-one: two values with the
    same structured data have the same days, in the same order and with
    the same repetitions, and the same opening and closing times. *)
Theorem opening_hours_injective (a b : OpenHoursValue.t) :
  OpenHoursValue.struct_dict a = OpenHoursValue.struct_dict b -> a = b.
Proof.
  destruct a as [da sa ea], b as [db sb eb].
  unfold OpenHoursValue.struct_dict. cbn. intros H.
  inversion H as [[Hd Hs He]].
  apply map_PStr_injective in Hd. subst. reflexivity.
Qed.

Lemma opening_hours_injective_witness :
  OpenHoursValue.mk ["Monday"; "Monday"] (mk_time 9 0 0 0)
                    (mk_time 17 30 0 0) =
  OpenHoursValue.mk ["Monday"; "Monday"] (mk_time 9 0 0 0)
                    (mk_time 17 30 0 0).
Proof.
  apply (opening_hours_injective
           (OpenHoursValue.mk ["Monday"; "Monday"] (mk_time 9 0 0 0)
                              (mk_time 17 30 0 0))
           (OpenHoursValue.mk ["Monday"; "Monday"] (mk_time 9 0 0 0)
                              (mk_time 17 30 0 0))).
  reflexivity.
Defined.

(** ** White space around [extra_json]

    The decoder skips white space before and after the value, so a text
    that decodes still decodes, to the same value, with white space added
    at either end.  The proof follows the scanners one by one: appending
    a text that starts with a white space character changes nothing in
    what a successful scan has read. *)

Module json_framing.
Import json json_facts.
Local Open Scope string_scope.

(** Empty, or starting with a white space character. *)
Definition ws_head (w : string) : Prop :=
  match w with
  | EmptyString => True
  | String c _ => is_whitespace c = true
  end.

Lemma whitespace_cases (c : ascii) :
  is_whitespace c = true ->
  c = " "%char \/ c = "009"%char \/ c = "010"%char \/ c = "013"%char.
Proof.
  unfold is_whitespace. rewrite !orb_true_iff, !Ascii.eqb_eq. tauto.
Qed.

Ltac whitespace_char c H :=
  destruct (whitespace_cases c H) as [-> | [-> | [-> | ->]]].

Lemma all_whitespace_head (w : string) :
  all_whitespace w = true -> ws_head w.
Proof.
  destruct w as [|c w]; simpl; [auto|].
  intros H. apply andb_true_iff in H. tauto.
Qed.

Lemma skip_whitespace_app (s w : string) (c : ascii) (r : string) :
  skip_whitespace s = String c r ->
  skip_whitespace (s ++ w) = String c (r ++ w).
Proof.
  induction s as [|a s IH]; simpl; [discriminate|].
  destruct (is_whitespace a); [exact IH|].
  intros H. inversion H; subst. reflexivity.
Qed.

Lemma skip_whitespace_app_empty (s w : string) :
  skip_whitespace s = "" -> skip_whitespace (s ++ w) = skip_whitespace w.
Proof.
  induction s as [|a s IH]; simpl; [reflexivity|].
  destruct (is_whitespace a); [exact IH | discriminate].
Qed.

Lemma skip_whitespace_prefix (pre s : string) :
  all_whitespace pre = true ->
  skip_whitespace (pre ++ s) = skip_whitespace s.
Proof.
  intros H. apply skip_whitespace_app_empty. apply skip_whitespace_all, H.
Qed.

Lemma scan_digits_app (w : string) :
  ws_head w ->
  forall s acc n a m r,
    scan_digits s acc n = (a, m, r) ->
    scan_digits (s ++ w) acc n = (a, m, r ++ w).
Proof.
  intros Hw. induction s as [|c s IH]; simpl; intros acc n a m r H.
  - inversion H; subst. destruct w as [|c w]; [reflexivity|].
    simpl in *. whitespace_char c Hw; reflexivity.
  - destruct (is_digit c); [apply IH; exact H|].
    inversion H; subst. reflexivity.
Qed.

Lemma scan_sign_app (w s : string) (neg : bool) (r : string) :
  ws_head w ->
  scan_sign s = (neg, r) -> scan_sign (s ++ w) = (neg, r ++ w).
Proof.
  intros Hw. destruct s as [|c s]; simpl; intros H.
  - inversion H; subst. destruct w as [|c w]; [reflexivity|].
    simpl in *. whitespace_char c Hw; reflexivity.
  - destruct (c =? "-")%char; inversion H; subst; reflexivity.
Qed.

Lemma scan_int_app (w s : string) (i : Z) (n : nat) (r : string) :
  ws_head w ->
  scan_int s = Some (i, n, r) -> scan_int (s ++ w) = Some (i, n, r ++ w).
Proof.
  intros Hw. destruct s as [|c s]; [discriminate|].
  cbn [append]. unfold scan_int.
  destruct (c =? "0")%char; [intros H; inversion H; subst; reflexivity|].
  destruct (is_digit c); [|discriminate].
  intros H.
  assert (E : scan_digits (String c s) 0 0 = (i, n, r)) by congruence.
  change (String c (s ++ w)) with (String c s ++ w)%string.
  rewrite (scan_digits_app w Hw _ _ _ _ _ _ E). reflexivity.
Qed.

Lemma scan_frac_app (w s : string) (frac : option (Z * nat)) (r : string) :
  ws_head w ->
  scan_frac s = (frac, r) -> scan_frac (s ++ w) = (frac, r ++ w).
Proof.
  intros Hw. unfold scan_frac.
  destruct s as [|dot [|d t]]; cbn [append].
  - intros H. inversion H; subst.
    destruct w as [|c [|d t]]; try reflexivity.
    simpl in Hw. whitespace_char c Hw; reflexivity.
  - intros H. inversion H; subst.
    destruct w as [|c w]; [reflexivity|].
    simpl in Hw. cbn [append].
    replace (is_digit c) with false by (whitespace_char c Hw; reflexivity).
    rewrite andb_false_r. reflexivity.
  - destruct ((dot =? ".")%char && is_digit d).
    + destruct (scan_digits (String d t) 0 0) as [[f n] r0] eqn:E.
      intros H. inversion H; subst.
      change (String d (t ++ w)) with (String d t ++ w)%string.
      rewrite (scan_digits_app w Hw _ _ _ _ _ _ E). reflexivity.
    + intros H. inversion H; subst. reflexivity.
Qed.

Lemma scan_exp_app (w s : string) (exp : option Z) (r : string) :
  ws_head w ->
  scan_exp s = (exp, r) -> scan_exp (s ++ w) = (exp, r ++ w).
Proof.
  intros Hw. unfold scan_exp.
  destruct s as [|e t]; cbn [append].
  - intros H. inversion H; subst.
    destruct w as [|c w]; [reflexivity|].
    simpl in Hw. whitespace_char c Hw; reflexivity.
  - destruct ((e =? "e")%char || (e =? "E")%char);
      [|intros H; inversion H; subst; reflexivity].
    assert (L : forall (neg : bool) t1,
      match scan_digits t1 0 0 with
      | (_, O, _) => (None, String e t)
      | (x, _, r0) => (Some (if neg then (- x)%Z else x), r0)
      end = (exp, r) ->
      match scan_digits (t1 ++ w) 0 0 with
      | (_, O, _) => (None, String e (t ++ w))
      | (x, _, r0) => (Some (if neg then (- x)%Z else x), r0)
      end = (exp, r ++ w)).
    { intros neg t1 H1.
      destruct (scan_digits t1 0 0) as [[x n] r0] eqn:E.
      rewrite (scan_digits_app w Hw _ _ _ _ _ _ E).
      destruct n; inversion H1; subst; reflexivity. }
    destruct t as [|sign t']; cbn [append].
    + intros H. specialize (L false EmptyString H). cbn [append] in L.
      destruct w as [|c w]; [exact L|].
      simpl in Hw.
      replace ((c =? "-")%char) with false
        by (whitespace_char c Hw; reflexivity).
      replace ((c =? "+")%char) with false
        by (whitespace_char c Hw; reflexivity).
      exact L.
    + destruct (sign =? "-")%char; [|destruct (sign =? "+")%char];
        intros H.
      * exact (L true t' H).
      * exact (L false t' H).
      * exact (L false (String sign t') H).
Qed.

Lemma match_number_app (maxd : nat) (w s : string) (v : pyval)
    (r : string) :
  ws_head w ->
  match_number maxd s = Ok (v, r) ->
  match_number maxd (s ++ w) = Ok (v, r ++ w).
Proof.
  intros Hw. unfold match_number.
  destruct (scan_sign s) as [neg s1] eqn:E1.
  rewrite (scan_sign_app w _ _ _ Hw E1).
  destruct (scan_int s1) as [[[i n] s2]|] eqn:E2; [|discriminate].
  rewrite (scan_int_app w _ _ _ _ Hw E2).
  destruct (scan_frac s2) as [frac s3] eqn:E3.
  rewrite (scan_frac_app w _ _ _ Hw E3).
  destruct (scan_exp s3) as [exp s4] eqn:E4.
  rewrite (scan_exp_app w _ _ _ Hw E4).
  destruct frac as [[f k]|], exp;
    try destruct (exceeds_max_str_digits maxd n);
    intros H; inversion H; subst; reflexivity.
Qed.

Lemma starts_with_app (p : string) :
  forall s w r,
    starts_with p s = Some r -> starts_with p (s ++ w) = Some (r ++ w).
Proof.
  induction p as [|a p IH]; simpl; intros s w r H.
  - inversion H; subst. reflexivity.
  - destruct s as [|b s]; [discriminate|]. cbn [append].
    destruct (a =? b)%char; [auto | discriminate].
Qed.

(** No character of [p] is white space. *)
Fixpoint no_whitespace (p : string) : bool :=
  match p with
  | EmptyString => true
  | String a p' => negb (is_whitespace a) && no_whitespace p'
  end.

Lemma starts_with_app_None (p : string) :
  no_whitespace p = true ->
  forall s w,
    ws_head w ->
    starts_with p s = None -> starts_with p (s ++ w) = None.
Proof.
  induction p as [|a p IH]; simpl; intros Hp s w Hw H; [discriminate|].
  apply andb_true_iff in Hp as [Ha Hp].
  destruct s as [|b s]; cbn [append].
  - destruct w as [|c w]; [reflexivity|]. simpl in Hw.
    destruct (a =? c)%char eqn:E; [|reflexivity].
    apply Ascii.eqb_eq in E. subst. rewrite Hw in Ha. discriminate.
  - destruct (a =? b)%char; [auto | reflexivity].
Qed.

Lemma scan_constant_app (w s : string) (v : pyval) (r : string) :
  ws_head w ->
  scan_constant s = Some (v, r) -> scan_constant (s ++ w) = Some (v, r ++ w).
Proof.
  intros Hw. unfold scan_constant. intros H.
  repeat match type of H with
  | context [starts_with ?p s] =>
      let E := fresh "E" in
      destruct (starts_with p s) eqn:E;
      [ rewrite (starts_with_app p _ w _ E); inversion H; subst; reflexivity
      | rewrite (starts_with_app_None p eq_refl _ _ Hw E) ]
  end.
  discriminate.
Qed.

Lemma scan_constant_app_None (w s : string) :
  ws_head w ->
  scan_constant s = None -> scan_constant (s ++ w) = None.
Proof.
  intros Hw. unfold scan_constant. intros H.
  repeat match type of H with
  | context [starts_with ?p s] =>
      let E := fresh "E" in
      destruct (starts_with p s) eqn:E;
      [ discriminate
      | rewrite (starts_with_app_None p eq_refl _ _ Hw E) ]
  end.
  reflexivity.
Qed.

(** After a first escape: a second one follows that may complete a
    surrogate pair. *)
Definition pair_follows (s : string) : bool :=
  match s with
  | String b (String u (String _ (String _ (String _ (String _ _))))) =>
      (b =? "\")%char && (u =? "u")%char
  | _ => false
  end.

(** [scanstring] at an escape of four hexadecimal digits. *)
Lemma scanstring_escape (acc : string) (h1 h2 h3 h4 : ascii) (s6 : string)
    (cp : N) :
  hex4 h1 h2 h3 h4 = Some cp ->
  is_high_surrogate cp && pair_follows s6 = false ->
  scanstring acc
    (String "\" (String "u" (String h1 (String h2 (String h3
       (String h4 s6)))))) =
  scanstring (acc ++ utf8 cp) s6.
Proof.
  intros Hh Hp. cbn [scanstring]. cbn. rewrite Hh.
  destruct s6 as [|b [|u [|l1 [|l2 [|l3 [|l4 s12]]]]]]; try reflexivity.
  cbn [pair_follows] in Hp. rewrite <- andb_assoc, Hp. reflexivity.
Qed.

Lemma scanstring_pair (acc : string) (h1 h2 h3 h4 l1 l2 l3 l4 : ascii)
    (s12 : string) (cp : N) :
  hex4 h1 h2 h3 h4 = Some cp ->
  is_high_surrogate cp = true ->
  scanstring acc
    (String "\" (String "u" (String h1 (String h2 (String h3 (String h4
       (String "\" (String "u" (String l1 (String l2 (String l3
          (String l4 s12)))))))))))) =
  match hex4 l1 l2 l3 l4 with
  | None => Raise JSONDecodeError
  | Some cp2 =>
      if is_low_surrogate cp2 then
        scanstring (acc ++ utf8 (join_surrogates cp cp2)) s12
      else
        scanstring (acc ++ utf8 cp)
          (String "\" (String "u" (String l1 (String l2 (String l3
             (String l4 s12))))))
  end.
Proof.
  intros Hh Hs. cbn [scanstring]. cbn. rewrite Hh, Hs. reflexivity.
Qed.

(** A text that scans as the rest of a string starts no unfinished
    escape. *)
Lemma pair_follows_app (w s6 acc str r : string) :
  ws_head w ->
  scanstring acc s6 = Ok (str, r) ->
  pair_follows s6 = false ->
  pair_follows (s6 ++ w) = false.
Proof.
  intros Hw H Hp.
  destruct s6 as [|b s6].
  { destruct w as [|c [|u [|x1 [|x2 [|x3 [|x4 w]]]]]]; try reflexivity.
    simpl in Hw. cbn. whitespace_char c Hw; reflexivity. }
  destruct s6 as [|u s6].
  { destruct w as [|c [|x1 [|x2 [|x3 [|x4 w]]]]]; try reflexivity.
    simpl in Hw. cbn. rewrite andb_comm. whitespace_char c Hw; reflexivity. }
  destruct ((b =? "\")%char && (u =? "u")%char) eqn:C.
  - apply andb_true_iff in C as [Cb Cu].
    apply Ascii.eqb_eq in Cb, Cu. subst b u.
    destruct s6 as [|x1 [|x2 [|x3 [|x4 s6]]]]; try discriminate H.
    cbn in Hp. discriminate Hp.
  - destruct s6 as [|x1 [|x2 [|x3 [|x4 s6]]]]; cbn [append pair_follows];
      destruct w as [|y1 [|y2 [|y3 [|y4 w]]]]; cbn [append pair_follows];
      try reflexivity; exact C.
Qed.

Lemma scanstring_app (w : string) (n : nat) :
  ws_head w ->
  forall s acc str r,
    String.length s <= n ->
    scanstring acc s = Ok (str, r) ->
    scanstring acc (s ++ w) = Ok (str, r ++ w).
Proof.
  intros Hw. induction n as [|n IH]; intros s acc str r Hn H.
  { destruct s; [discriminate | simpl in Hn; lia]. }
  destruct s as [|c s1]; [discriminate|].
  cbn [append].
  destruct (c =? "034")%char eqn:Cq.
  { cbn [scanstring] in H |- *. rewrite Cq in *.
    inversion H; subst. reflexivity. }
  destruct (c =? "\")%char eqn:Cb.
  2:{ cbn [scanstring] in H |- *. rewrite Cq, Cb in *.
      destruct (nat_of_ascii c <? 32)%nat; [discriminate|].
      apply IH; [simpl in Hn; lia | exact H]. }
  apply Ascii.eqb_eq in Cb. subst c.
  destruct s1 as [|e s2]; [discriminate|]. cbn [append].
  destruct (e =? "u")%char eqn:Cu.
  2:{ cbn [scanstring] in H |- *.
      change ("\" =? "034")%char with false in *.
      change ("\" =? "\")%char with true in *.
      cbv iota in H |- *. rewrite Cu in *.
      destruct (simple_escape e); [|discriminate].
      apply IH; [simpl in Hn; lia | exact H]. }
  apply Ascii.eqb_eq in Cu. subst e.
  destruct s2 as [|h1 [|h2 [|h3 [|h4 s6]]]]; try discriminate H.
  cbn [append].
  destruct (hex4 h1 h2 h3 h4) as [cp|] eqn:Hh;
    [|cbn in H; rewrite Hh in H; discriminate].
  destruct (is_high_surrogate cp && pair_follows s6) eqn:P.
  - apply andb_true_iff in P as [Ps Pf].
    destruct s6 as [|b [|u [|l1 [|l2 [|l3 [|l4 s12]]]]]];
      try discriminate Pf.
    cbn [pair_follows] in Pf. apply andb_true_iff in Pf as [Pb Pu].
    apply Ascii.eqb_eq in Pb, Pu. subst b u.
    cbn [append]. rewrite (scanstring_pair _ _ _ _ _ _ _ _ _ _ _ Hh Ps) in H.
    rewrite (scanstring_pair _ _ _ _ _ _ _ _ _ _ _ Hh Ps).
    destruct (hex4 l1 l2 l3 l4) as [cp2|]; [|discriminate H].
    destruct (is_low_surrogate cp2).
    + apply IH; [simpl in Hn; lia | exact H].
    + apply (IH (String "\" (String "u" (String l1 (String l2 (String l3
                  (String l4 s12)))))));
        [simpl in Hn |- *; lia | exact H].
  - rewrite (scanstring_escape _ _ _ _ _ _ _ Hh P) in H.
    rewrite scanstring_escape with (cp := cp); [| exact Hh |].
    + apply IH; [simpl in Hn; lia | exact H].
    + apply andb_false_iff in P as [P | P]; [rewrite P; reflexivity|].
      rewrite (pair_follows_app w _ _ _ _ Hw H P). apply andb_false_r.
Qed.

(** What a successful scan has read does not depend on white space that
    follows the text. *)
Lemma scan_app (maxd : nat) (w : string) :
  ws_head w ->
  forall fuel,
    (forall depth s v r,
        scan_once fuel depth maxd s = Some (Ok (v, r)) ->
        scan_once fuel depth maxd (s ++ w) = Some (Ok (v, r ++ w))) /\
    (forall depth s acc v r,
        parse_array fuel depth maxd s acc = Some (Ok (v, r)) ->
        parse_array fuel depth maxd (s ++ w) acc = Some (Ok (v, r ++ w))) /\
    (forall depth s acc v r,
        parse_object fuel depth maxd s acc = Some (Ok (v, r)) ->
        parse_object fuel depth maxd (s ++ w) acc = Some (Ok (v, r ++ w))).
Proof.
  intros Hw.
  induction fuel as [|n (IH1 & IH2 & IH3)];
    [repeat split; intros; discriminate|].
  split; [|split].
  - intros depth s v r H. cbn [scan_once] in H.
    destruct s as [|c s']; [discriminate|].
    cbn [append scan_once].
    destruct (c =? "034")%char.
    { destruct (scanstring "" s') as [[str r0]|x] eqn:E; [|discriminate].
      rewrite (scanstring_app w _ Hw _ _ _ _ (le_n _) E).
      inversion H; subst. reflexivity. }
    destruct (c =? "{")%char.
    { destruct depth as [|depth']; [discriminate|].
      destruct (skip_whitespace s') as [|c' r0] eqn:Ew; [discriminate|].
      rewrite (skip_whitespace_app _ w _ _ Ew).
      destruct (c' =? "}")%char.
      - inversion H; subst. reflexivity.
      - apply (IH3 depth' (String c' r0)). exact H. }
    destruct (c =? "[")%char.
    { destruct depth as [|depth']; [discriminate|].
      destruct (skip_whitespace s') as [|c' r0] eqn:Ew; [discriminate|].
      rewrite (skip_whitespace_app _ w _ _ Ew).
      destruct (c' =? "]")%char.
      - inversion H; subst. reflexivity.
      - apply (IH2 depth' (String c' r0)). exact H. }
    change (String c (s' ++ w)) with (String c s' ++ w).
    destruct (scan_constant (String c s')) as [[v0 r0]|] eqn:E.
    + rewrite (scan_constant_app w _ _ _ Hw E).
      inversion H; subst. reflexivity.
    + rewrite (scan_constant_app_None w _ Hw E).
      inversion H as [H1]. rewrite (match_number_app maxd w _ _ _ Hw H1).
      reflexivity.
  - intros depth s acc v r H. cbn [parse_array] in H |- *.
    destruct (scan_once n depth maxd s) as [[[v0 r0]|x]|] eqn:E;
      try discriminate.
    rewrite (IH1 _ _ _ _ E).
    destruct (skip_whitespace r0) as [|c r1] eqn:Ew; [discriminate|].
    rewrite (skip_whitespace_app _ w _ _ Ew).
    destruct (c =? "]")%char; [inversion H; subst; reflexivity|].
    destruct (c =? ",")%char; [|discriminate].
    destruct (skip_whitespace r1) as [|c2 r2] eqn:Ew1.
    + apply (proj1 (proj2 (scan_progress maxd n))) in H. simpl in H. lia.
    + rewrite (skip_whitespace_app _ w _ _ Ew1).
      apply (IH2 depth (String c2 r2)). exact H.
  - intros depth s acc v r H. cbn [parse_object] in H.
    destruct s as [|q s1]; [discriminate|].
    cbn [append parse_object].
    destruct (q =? "034")%char; [|discriminate].
    destruct (scanstring "" s1) as [[key r0]|x] eqn:Es; [|discriminate].
    rewrite (scanstring_app w _ Hw _ _ _ _ (le_n _) Es).
    destruct (skip_whitespace r0) as [|colon r1] eqn:Ew0; [discriminate|].
    rewrite (skip_whitespace_app _ w _ _ Ew0).
    destruct (colon =? ":")%char; [|discriminate].
    destruct (skip_whitespace r1) as [|c1 r1'] eqn:Ew1.
    { destruct n; [discriminate|]. discriminate. }
    rewrite (skip_whitespace_app _ w _ _ Ew1).
    destruct (scan_once n depth maxd (String c1 r1'))
      as [[[v0 r2]|x]|] eqn:E; try discriminate.
    change (String c1 (r1' ++ w)) with (String c1 r1' ++ w).
    rewrite (IH1 _ _ _ _ E).
    destruct (skip_whitespace r2) as [|c r3] eqn:Ew2; [discriminate|].
    rewrite (skip_whitespace_app _ w _ _ Ew2).
    destruct (c =? "}")%char; [inversion H; subst; reflexivity|].
    destruct (c =? ",")%char; [|discriminate].
    destruct (skip_whitespace r3) as [|c4 r4] eqn:Ew3.
    + apply (proj2 (proj2 (scan_progress maxd n))) in H. simpl in H. lia.
    + rewrite (skip_whitespace_app _ w _ _ Ew3).
      apply (IH3 depth (String c4 r4)). exact H.
Qed.

(** More fuel changes no result. *)
Lemma scan_fuel_more (maxd n : nat) :
  forall m, n <= m ->
    (forall depth s res,
        scan_once n depth maxd s = Some res ->
        scan_once m depth maxd s = Some res) /\
    (forall depth s acc res,
        parse_array n depth maxd s acc = Some res ->
        parse_array m depth maxd s acc = Some res) /\
    (forall depth s acc res,
        parse_object n depth maxd s acc = Some res ->
        parse_object m depth maxd s acc = Some res).
Proof.
  induction n as [|n IH]; intros m Hm;
    [repeat split; intros; discriminate|].
  destruct m as [|m]; [lia|].
  destruct (IH m ltac:(lia)) as (IH1 & IH2 & IH3).
  split; [|split].
  - intros depth s res H. cbn [scan_once] in H |- *.
    destruct s as [|c s']; [exact H|].
    destruct (c =? "034")%char; [exact H|].
    destruct (c =? "{")%char.
    { destruct depth as [|depth']; [exact H|].
      destruct (skip_whitespace s') as [|c' r0]; [exact H|].
      destruct (c' =? "}")%char; [exact H | auto]. }
    destruct (c =? "[")%char.
    { destruct depth as [|depth']; [exact H|].
      destruct (skip_whitespace s') as [|c' r0]; [exact H|].
      destruct (c' =? "]")%char; [exact H | auto]. }
    exact H.
  - intros depth s acc res H. cbn [parse_array] in H |- *.
    destruct (scan_once n depth maxd s) as [[[v0 r0]|x]|] eqn:E;
      try discriminate; rewrite (IH1 _ _ _ E); [|exact H].
    destruct (skip_whitespace r0) as [|c r1]; [exact H|].
    destruct (c =? "]")%char; [exact H|].
    destruct (c =? ",")%char; [auto | exact H].
  - intros depth s acc res H. cbn [parse_object] in H |- *.
    destruct s as [|q s1]; [exact H|].
    destruct (q =? "034")%char; [|exact H].
    destruct (scanstring "" s1) as [[key r0]|x]; [|exact H].
    destruct (skip_whitespace r0) as [|colon r1]; [exact H|].
    destruct (colon =? ":")%char; [|exact H].
    destruct (scan_once n depth maxd (skip_whitespace r1))
      as [[[v0 r2]|x]|] eqn:E;
      try discriminate; rewrite (IH1 _ _ _ E); [|exact H].
    destruct (skip_whitespace r2) as [|c r3]; [exact H|].
    destruct (c =? "}")%char; [exact H|].
    destruct (c =? ",")%char; [auto | exact H].
Qed.

Lemma length_app (a b : string) :
  String.length (a ++ b) = String.length a + String.length b.
Proof. induction a as [|c a IH]; simpl; [reflexivity | now rewrite IH]. Qed.

(** [json.loads] ignores white space around a text that decodes. *)
Lemma loads_surrounded (lim : limits) (pre s post : string) (v : pyval) :
  all_whitespace pre = true ->
  all_whitespace post = true ->
  loads lim s = Ok v ->
  loads lim (pre ++ s ++ post) = Ok v.
Proof.
  intros Hpre Hpost. unfold loads.
  destruct (scan_once (2 * String.length s + 1) (nesting lim)
              (max_str_digits lim) (skip_whitespace s))
    as [[[v0 rest]|x]|] eqn:E; try discriminate.
  destruct (skip_whitespace rest) eqn:Er; [|discriminate].
  intros H. inversion H; subst v0. clear H.
  rewrite (skip_whitespace_prefix _ _ Hpre).
  destruct (skip_whitespace s) as [|c r] eqn:Es.
  { rewrite Nat.add_1_r in E. discriminate. }
  rewrite (skip_whitespace_app _ post _ _ Es).
  pose proof (all_whitespace_head _ Hpost) as Hw.
  apply (proj1 (scan_app _ post Hw _)) in E.
  assert (F : 2 * String.length s + 1
              <= 2 * String.length (pre ++ s ++ post) + 1).
  { rewrite !length_app. lia. }
  apply (proj1 (scan_fuel_more _ _ _ F)) in E.
  change (String c (r ++ post)) with (String c r ++ post).
  rewrite E.
  rewrite (skip_whitespace_app_empty _ post Er).
  rewrite (skip_whitespace_all _ Hpost). reflexivity.
Qed.

End json_framing.

(** X11: white space around a text that decodes is ignored: if
    [extra_json] is valid JSON, adding spaces, tabs or line ends before
    and after it changes nothing in what the projection returns or
    raises. *)
Theorem surrounding_whitespace_ignored (lim : json.limits)
    (self : StructuredDataActionValue.t) (pre post : string) (v : pyval) :
  all_whitespace pre = true ->
  all_whitespace post = true ->
  json.loads lim (extra_json self) = Ok v ->
  struct_dict lim
    (with_extra_json self (pre ++ extra_json self ++ post)%string) =
  struct_dict lim self.
Proof.
  intros Hpre Hpost E.
  rewrite (struct_dict_unfold lim self), struct_dict_unfold.
  change (steps12 (with_extra_json self
                     (pre ++ extra_json self ++ post)%string))
    with (steps12 self).
  cbn [with_extra_json extra_json].
  rewrite (json_framing.loads_surrounded lim pre _ post v Hpre Hpost E), E.
  assert (N : extra_json self <> "").
  { intros Z. rewrite Z in E. discriminate E. }
  assert (T : forall a b, b <> "" -> truthy (a ++ b)%string = true).
  { intros a b Hb. unfold truthy.
    destruct (a ++ b)%string eqn:A; [|reflexivity].
    destruct a; [simpl in A; contradiction | discriminate]. }
  rewrite (T pre).
  - replace (truthy (extra_json self)) with true; [reflexivity|].
    symmetry. apply (T "" _ N).
  - destruct (extra_json self); [contradiction | discriminate].
Qed.

Lemma surrounding_whitespace_ignored_witness :
  struct_dict default_limits
    (with_extra_json
       (mk "SearchAction" "t" "q" "en-US" "" ""
          ("{" ++ quoted "a" ++ ": 1}")%string)
       (String "010" " " ++ ("{" ++ quoted "a" ++ ": 1}")
        ++ String "013" (String "010" ""))%string) =
  struct_dict default_limits
    (mk "SearchAction" "t" "q" "en-US" "" ""
       ("{" ++ quoted "a" ++ ": 1}")%string).
Proof.
  apply (surrounding_whitespace_ignored default_limits
           (mk "SearchAction" "t" "q" "en-US" "" ""
              ("{" ++ quoted "a" ++ ": 1}")%string)
           (String "010" " ") (String "013" (String "010" ""))
           (PDict [ (PStr "a", PInt 1) ])).
  - reflexivity.
  - reflexivity.
  - vm_compute. reflexivity.
Defined.

(** ** The searchable text of a selection *)

Module searchable.
Local Open Scope string_scope.

Lemma plain_char_continuation (c : ascii) :
  plain_char c = true -> is_continuation c = false.
Proof.
  unfold plain_char, is_continuation. intros H.
  apply andb_true_iff in H as [H _]. apply andb_true_iff in H as [H _].
  apply andb_true_iff in H as [_ H]. apply N.ltb_lt in H.
  apply andb_false_iff. left. apply Nat.leb_gt.
  unfold nat_of_ascii. lia.
Qed.

Lemma chars_plain (s : string) :
  plain s = true ->
  chars s = map (fun c => String c "") (list_ascii_of_string s).
Proof.
  induction s as [|c s IH]; simpl; [reflexivity|].
  intros H. apply andb_true_iff in H as [_ H].
  rewrite (IH H).
  destruct s as [|c1 s]; [reflexivity|].
  simpl in H |- *. apply andb_true_iff in H as [H1 _].
  rewrite (plain_char_continuation _ H1). reflexivity.
Qed.

Lemma plain_no_apostrophe (s : string) :
  plain s = true -> contains "039" s = false.
Proof.
  induction s as [|c s IH]; simpl; [reflexivity|].
  intros H. apply andb_true_iff in H as [Hc H].
  rewrite (IH H), orb_false_r.
  destruct (c =? "039")%char eqn:E; [|reflexivity].
  apply Ascii.eqb_eq in E. subst. discriminate Hc.
Qed.

Lemma repr_char_plain (printable : N -> bool) (c : ascii) :
  plain_char c = true ->
  repr_char printable "039" (String c "") = String c "".
Proof.
  unfold plain_char, repr_char, code_point. cbn [list_ascii_of_string fold_left].
  intros H.
  apply andb_true_iff in H as [H H92]. apply andb_true_iff in H as [H H39].
  apply andb_true_iff in H as [H32 H127].
  apply negb_true_iff in H92, H39.
  apply N.leb_le in H32. pose proof H127 as L127. apply N.ltb_lt in L127.
  replace (N_of_ascii c <? 128)%N with true by (symmetry; apply N.ltb_lt; lia).
  change (N_of_ascii "039") with 39%N.
  rewrite H39, H92. cbn [orb].
  replace (N_of_ascii c =? 9)%N with false by (symmetry; apply N.eqb_neq; lia).
  replace (N_of_ascii c =? 10)%N with false
    by (symmetry; apply N.eqb_neq; lia).
  replace (N_of_ascii c =? 13)%N with false
    by (symmetry; apply N.eqb_neq; lia).
  replace (N_of_ascii c <? 32)%N with false
    by (symmetry; apply N.ltb_ge; lia).
  replace (N_of_ascii c =? 127)%N with false
    by (symmetry; apply N.eqb_neq; lia).
  cbn [orb]. rewrite H127. reflexivity.
Qed.

Lemma concat_repr_plain (printable : N -> bool) (s : string) :
  plain s = true ->
  String.concat ""
    (map (repr_char printable "039")
         (map (fun c => String c "") (list_ascii_of_string s))) = s.
Proof.
  induction s as [|c s IH]; [reflexivity|].
  intros H. simpl in H. apply andb_true_iff in H as [Hc H].
  cbn [list_ascii_of_string map]. rewrite (repr_char_plain _ _ Hc).
  specialize (IH H).
  destruct (list_ascii_of_string s) as [|c1 l] eqn:E.
  - destruct s; [reflexivity | discriminate E].
  - cbn [map String.concat] in IH |- *. rewrite IH. reflexivity.
Qed.

(** [repr] of a plain token: the token between apostrophes. *)
Lemma repr_plain (printable : N -> bool) (s : string) :
  plain s = true -> py_repr_str printable s = apostrophes s.
Proof.
  intros H. unfold py_repr_str, repr_quote, apostrophes.
  rewrite (plain_no_apostrophe _ H). cbn [andb].
  rewrite (chars_plain _ H), (concat_repr_plain _ _ H). reflexivity.
Qed.

Lemma map_repr_plain (printable : N -> bool) (value : list string) :
  (forall t, In t value -> plain t = true) ->
  map (py_repr_str printable) value = map apostrophes value.
Proof.
  induction value as [|t value IH]; intros H; [reflexivity|].
  simpl. rewrite (repr_plain _ _ (H t (or_introl eq_refl))), IH;
    [reflexivity|].
  intros u Hu. apply H. right. exact Hu.
Qed.

Lemma append_empty (s : string) : s ++ "" = s.
Proof. induction s as [|c s IH]; simpl; [reflexivity | now rewrite IH]. Qed.

Lemma append_assoc (a b c : string) : (a ++ b) ++ c = a ++ b ++ c.
Proof. induction a as [|x a IH]; simpl; [reflexivity | now rewrite IH]. Qed.

Lemma concat_occurs (sep t : string) (l : list string) :
  In t l -> exists pre post, String.concat sep l = pre ++ t ++ post.
Proof.
  induction l as [|a l IH]; intros H; [contradiction|].
  destruct H as [-> | H].
  - destruct l as [|b l].
    + exists "", "". simpl. now rewrite append_empty.
    + exists "", (sep ++ String.concat sep (b :: l)). reflexivity.
  - destruct (IH H) as (pre & post & E).
    destruct l as [|b l]; [contradiction|].
    exists (a ++ sep ++ pre), post.
    cbn [String.concat]. cbn [String.concat] in E. rewrite E.
    rewrite !append_assoc. reflexivity.
Qed.

(** Where a plain token ends is read off the text: at the first
    apostrophe. *)
Lemma plain_split (t1 : string) :
  forall t2 x1 x2,
    plain t1 = true -> plain t2 = true ->
    t1 ++ String "039" x1 = t2 ++ String "039" x2 ->
    t1 = t2 /\ x1 = x2.
Proof.
  induction t1 as [|c t1 IH]; intros [|d t2] x1 x2 H1 H2 E; simpl in *.
  - inversion E; auto.
  - inversion E; subst. apply andb_true_iff in H2 as [H2 _].
    discriminate H2.
  - inversion E; subst. apply andb_true_iff in H1 as [H1 _].
    discriminate H1.
  - inversion E; subst.
    apply andb_true_iff in H1 as [_ H1]. apply andb_true_iff in H2 as [_ H2].
    destruct (IH _ _ _ H1 H2 H3) as [-> ->]. auto.
Qed.

(** What follows the first token in the text of a list. *)
Definition after_first (l : list string) : string :=
  match l with
  | [] => ""
  | _ => ", " ++ String.concat ", " (map apostrophes l)
  end.

Lemma concat_apostrophes (t : string) (l : list string) :
  String.concat ", " (map apostrophes (t :: l)) =
  String "039" (t ++ String "039" (after_first l)).
Proof.
  destruct l as [|u l]; cbn [map String.concat after_first].
  - reflexivity.
  - unfold apostrophes at 1. cbn [append]. rewrite append_assoc.
    reflexivity.
Qed.

Lemma concat_apostrophes_injective (l1 : list string) :
  forall l2,
    (forall t, In t l1 -> plain t = true) ->
    (forall t, In t l2 -> plain t = true) ->
    String.concat ", " (map apostrophes l1) =
    String.concat ", " (map apostrophes l2) ->
    l1 = l2.
Proof.
  induction l1 as [|t1 l1 IH]; intros [|t2 l2] H1 H2 E.
  - reflexivity.
  - rewrite concat_apostrophes in E. discriminate E.
  - rewrite concat_apostrophes in E. discriminate E.
  - rewrite !concat_apostrophes in E. inversion E as [E'].
    apply plain_split in E' as [-> A];
      [| apply H1; left; reflexivity | apply H2; left; reflexivity].
    f_equal. apply IH.
    + intros u Hu. apply H1. right. exact Hu.
    + intros u Hu. apply H2. right. exact Hu.
    + destruct l1 as [|a l1], l2 as [|b l2]; try reflexivity;
        try discriminate A.
      unfold after_first in A. cbn [append] in A.
      injection A as A. exact A.
Qed.

Lemma weekdays_plain (t : string) :
  In t OpenHoursBlock.weekdays -> plain t = true.
Proof.
  unfold OpenHoursBlock.weekdays. simpl.
  intros [<- | [<- | [<- | [<- | [<- | [<- | [<- | []]]]]]]]; reflexivity.
Qed.

End searchable.

(** X12: for a selection of plain tokens, which the weekday names are,
    the searchable content is one text, the tokens between apostrophes,
    separated by a comma and a space, inside square brackets; every
    selected token occurs in it between apostrophes, so a search for a
    selected day finds the block. *)
Theorem searchable_content_of_plain_tokens
    (printable : N -> bool) (value : list string) :
  (forall t, In t value -> plain t = true) ->
  MultiSelectBlock.get_searchable_content printable value =
    [ ("[" ++ String.concat ", " (map apostrophes value) ++ "]")%string ] /\
  (forall t, In t value ->
     exists pre post,
       MultiSelectBlock.get_searchable_content printable value =
       [ (pre ++ apostrophes t ++ post)%string ]) /\
  (forall t, In t OpenHoursBlock.weekdays -> plain t = true).
Proof.
  intros H.
  assert (E : MultiSelectBlock.get_searchable_content printable value =
    [ ("[" ++ String.concat ", " (map apostrophes value) ++ "]")%string ]).
  { unfold MultiSelectBlock.get_searchable_content, py_str_list.
    rewrite (searchable.map_repr_plain _ _ H). reflexivity. }
  split; [exact E|]. split; [|exact searchable.weekdays_plain].
  intros t Ht. rewrite E.
  destruct (searchable.concat_occurs ", " (apostrophes t)
              (map apostrophes value) (in_map _ _ _ Ht))
    as (pre & post & C).
  exists ("[" ++ pre)%string, (post ++ "]")%string.
  rewrite C. cbn [append]. rewrite !searchable.append_assoc. reflexivity.
Qed.

Lemma searchable_content_of_plain_tokens_witness :
  MultiSelectBlock.get_searchable_content (fun _ => true)
    ["Monday"; "Friday"] =
  [ ("[" ++ String.concat ", " (map apostrophes ["Monday"; "Friday"])
     ++ "]")%string ].
Proof.
  apply (searchable_content_of_plain_tokens (fun _ => true)
           ["Monday"; "Friday"]).
  intros t [<- | [<- | []]]; reflexivity.
Defined.

(** X13: the searchable content tells selections of plain tokens apart:
    two of them with the same searchable content are the same selection,
    in the same order. *)
Theorem searchable_content_injective
    (printable : N -> bool) (value1 value2 : list string) :
  (forall t, In t value1 -> plain t = true) ->
  (forall t, In t value2 -> plain t = true) ->
  MultiSelectBlock.get_searchable_content printable value1 =
  MultiSelectBlock.get_searchable_content printable value2 ->
  value1 = value2.
Proof.
  intros H1 H2.
  unfold MultiSelectBlock.get_searchable_content, py_str_list.
  rewrite (searchable.map_repr_plain _ _ H1).
  rewrite (searchable.map_repr_plain _ _ H2).
  intros E. inversion E as [E']. clear E.
  apply (searchable.concat_apostrophes_injective _ _ H1 H2).
  revert E'.
  generalize (String.concat ", " (map apostrophes value1)).
  generalize (String.concat ", " (map apostrophes value2)).
  intros b a. revert b.
  induction a as [|c a IH]; intros [|d b] E; simpl in E.
  - reflexivity.
  - inversion E; subst. destruct b; discriminate.
  - inversion E as [[Hc Ha]]. destruct a; discriminate.
  - inversion E; subst. f_equal. apply IH. assumption.
Qed.

Lemma searchable_content_injective_witness :
  ["Monday"; "Friday"] = ["Monday"; "Friday"].
Proof.
  apply (searchable_content_injective (fun _ => true)
           ["Monday"; "Friday"] ["Monday"; "Friday"]).
  - intros t [<- | [<- | []]]; reflexivity.
  - intros t [<- | [<- | []]]; reflexivity.
  - reflexivity.
Defined.

(** X14: with a falsy [result_type] the projection does not read
    [result_name]: two entries that differ in it only have the same
    projection, whatever [extra_json] holds. *)
Theorem result_name_unread_without_result_type (lim : json.limits)
    (self : StructuredDataActionValue.t) (rn : string) :
  truthy (result_type self) = false ->
  struct_dict lim (with_result self (result_type self) rn) = struct_dict lim self.
Proof.
  intros H. unfold struct_dict. f_equal.
  unfold body, with_result.
  cbn [action_type target query language result_type result_name
       extra_json].
  rewrite H. reflexivity.
Qed.

Lemma result_name_unread_without_result_type_witness :
  struct_dict default_limits
    (with_result (mk "OrderAction" "t" "" "en-US" "" "" "[]") "" "Order") =
  struct_dict default_limits (mk "OrderAction" "t" "" "en-US" "" "" "[]").
Proof.
  apply (result_name_unread_without_result_type default_limits
           (mk "OrderAction" "t" "" "en-US" "" "" "[]") "Order").
  reflexivity.
Defined.
